(** * Git branching simulator: the repository state machine of [main.py]

    A shallow embedding of the classes [GitCommit], [GitBranch] and
    [GitRepository], followed by the properties of the repository's
    operations.

    Conventions of the embedding:
    - a Python [dict] with string keys is a [gmap string _] (the insertion
      order, which only fixes the order of the items of a saved file, is not
      kept); the attribute
      [branch.head = ...] assigned through [self.branches.get(name)] is an
      update of the entry at [name] (every [GitBranch] object is stored under
      exactly one key: the constructors are called once per inserted entry);
    - an operation is a function from the repository before the call to the
      value returned or exception raised, paired with the repository after
      the call;
    - the sources of non-determinism are inputs: [now] is the value of
      [datetime.datetime.now()], [pick] the index drawn by [random.choice],
      [opened] whether [open(filename, 'w')] succeeds;
    - a parsed JSON document is a tree [json]; [json.dump] followed by
      [json.load] is the identity on such trees and is not modelled further. *)

From Stdlib Require Import Ascii Eqdep_dec.
From Stdlib Require String.
From stdpp Require Import gmap strings list fin_maps pretty relations.

Set Warnings "-register-all".

(** ** Results of calls *)

Inductive exn : Type :=
  | KeyError (key : string)
  | TypeError
  | AttributeError
  | ValueError
  | FileNotFoundError (filename : string)
  | OSError.

(** [Unmodelled] marks a run that leaves the fragment of Python covered here
    (a field of a loaded document that has an unexpected JSON type and is
    stored as it is, an ISO layout other than the ones [isoformat] emits).
    Nothing is concluded from it. *)
Inductive result (A : Type) : Type :=
  | Ok (a : A)
  | Raise (e : exn)
  | Unmodelled.
Arguments Ok {A} a.
Arguments Raise {A} e.
Arguments Unmodelled {A}.

#[global] Instance result_ret : MRet result := @Ok.
#[global] Instance result_bind : MBind result := λ A B k m,
  match m with
  | Ok a => k a
  | Raise e => Raise e
  | Unmodelled => Unmodelled
  end.

#[global] Instance result_fmap : FMap result := λ A B f m,
  match m with
  | Ok a => Ok (f a)
  | Raise e => Raise e
  | Unmodelled => Unmodelled
  end.

(** ** [datetime.datetime] (naive) *)

Module Datetime.

Definition is_leap (y : N) : bool :=
  ((y mod 4 =? 0) && (negb (y mod 100 =? 0) || (y mod 400 =? 0)))%N.

Definition days_in_month (y m : N) : N :=
  if (m =? 2)%N then (if is_leap y then 29 else 28)%N
  else if ((m =? 4) || (m =? 6) || (m =? 9) || (m =? 11))%N then 30%N
  else 31%N.

(** The ranges that the constructor of [datetime] enforces. *)
Definition in_range (y mo d h mi s us : N) : bool :=
  ((1 <=? y) && (y <=? 9999) && (1 <=? mo) && (mo <=? 12) &&
   (1 <=? d) && (d <=? days_in_month y mo) &&
   (h <? 24) && (mi <? 60) && (s <? 60) && (us <? 1000000))%N.

Record datetime : Type := mk_datetime {
  year : N; month : N; day : N;
  hour : N; minute : N; second : N; microsecond : N;
  datetime_ok : in_range year month day hour minute second microsecond = true
}.

Definition digit (d : N) : ascii := ascii_of_N (48 + d mod 10).

(** [zfill w n]: the last [w] decimal digits of [n], most significant
    first (the [%0wd] of the C formatter on a value below [10^w]). *)
Fixpoint zfill (w : nat) (n : N) : string :=
  match w with
  | O => EmptyString
  | S w' => String (digit (n / 10 ^ N.of_nat w')) (zfill w' n)
  end.

(** [datetime.isoformat()] of a naive value: [YYYY-MM-DDTHH:MM:SS], followed
    by [.ffffff] when the microsecond is not 0. *)
Definition isoformat (t : datetime) : string :=
  zfill 4 (year t) +:+ "-" +:+ zfill 2 (month t) +:+ "-" +:+ zfill 2 (day t)
  +:+ "T" +:+ zfill 2 (hour t) +:+ ":" +:+ zfill 2 (minute t) +:+ ":"
  +:+ zfill 2 (second t)
  +:+ (if (microsecond t =? 0)%N then "" else "." +:+ zfill 6 (microsecond t)).

(** [strftime('%Y-%m-%d %H:%M:%S')]. The year is printed by the C library's
    [%Y], which does not pad: a year below 1000 has fewer than four digits
    ([999-01-02 ...]), unlike in [isoformat]. The other fields have two
    digits. *)
Definition strftime (t : datetime) : string :=
  pretty (year t) +:+ "-" +:+ zfill 2 (month t) +:+ "-" +:+ zfill 2 (day t)
  +:+ " " +:+ zfill 2 (hour t) +:+ ":" +:+ zfill 2 (minute t) +:+ ":"
  +:+ zfill 2 (second t).

Definition is_digit (c : ascii) : bool :=
  ((48 <=? N_of_ascii c) && (N_of_ascii c <=? 57))%N.

Fixpoint take_digits (w : nat) (acc : N) (s : string) : option (N * string) :=
  match w with
  | O => Some (acc, s)
  | S w' =>
      match s with
      | String c rest =>
          if is_digit c
          then take_digits w' (10 * acc + (N_of_ascii c - 48)) rest
          else None
      | EmptyString => None
      end
  end.

Definition expect (c : ascii) (s : string) : option string :=
  match s with
  | String c' rest => if Ascii.eqb c c' then Some rest else None
  | EmptyString => None
  end.

Definition parse_fraction (s : string) : option N :=
  match s with
  | EmptyString => Some 0%N
  | _ =>
      s ← expect "."%char s;
      '(us, s) ← take_digits 6 0 s;
      match s with EmptyString => Some us | _ => None end
  end.

(** The two layouts written by [isoformat], split into their seven fields. *)
Definition parse_layout (s : string) : option (N * N * N * N * N * N * N) :=
  '(y, s) ← take_digits 4 0 s;
  s ← expect "-"%char s;
  '(mo, s) ← take_digits 2 0 s;
  s ← expect "-"%char s;
  '(d, s) ← take_digits 2 0 s;
  s ← expect "T"%char s;
  '(h, s) ← take_digits 2 0 s;
  s ← expect ":"%char s;
  '(mi, s) ← take_digits 2 0 s;
  s ← expect ":"%char s;
  '(se, s) ← take_digits 2 0 s;
  us ← parse_fraction s;
  Some (y, mo, d, h, mi, se, us).

(** [datetime.fromisoformat(s)] on a string [s]: on the layouts of
    [isoformat] the fields are range-checked ([ValueError] when one is out of
    range); the further layouts that some versions of the parser accept are
    left out. *)
Definition fromisoformat (s : string) : result datetime :=
  match parse_layout s with
  | Some (y, mo, d, h, mi, se, us) =>
      match bool_dec (in_range y mo d h mi se us) true with
      | left ok => Ok (mk_datetime y mo d h mi se us ok)
      | right _ => Raise ValueError
      end
  | None => Unmodelled
  end.

End Datetime.

(** ** Parsed JSON documents *)

(** A [dict] of a parsed document lists its items in document order; the
    keys of a dict that [json.load] returns are pairwise distinct. Numbers
    are integers: no field of this program is numeric. *)
Inductive json : Type :=
  | JNull
  | JBool (b : bool)
  | JNum (n : Z)
  | JStr (s : string)
  | JList (l : list json)
  | JDict (items : list (string * json)).

Module Json.

Fixpoint assoc (key : string) (items : list (string * json)) : option json :=
  match items with
  | [] => None
  | (k, v) :: rest => if decide (k = key) then Some v else assoc key rest
  end.

(** [data[key]] *)
Definition getitem (data : json) (key : string) : result json :=
  match data with
  | JDict items =>
      match assoc key items with
      | Some v => Ok v
      | None => Raise (KeyError key)
      end
  | _ => Raise TypeError
  end.

(** [data.get(key)] *)
Definition get (data : json) (key : string) : result json :=
  match data with
  | JDict items => Ok (default JNull (assoc key items))
  | _ => Raise AttributeError
  end.

(** [data.items()] *)
Definition items (data : json) : result (list (string * json)) :=
  match data with
  | JDict items => Ok items
  | _ => Raise AttributeError
  end.

(** Python's truth value of a document node. *)
Definition truthy (v : json) : bool :=
  match v with
  | JNull | JBool false | JNum 0 | JStr EmptyString | JList [] | JDict [] => false
  | _ => true
  end.

(** The fields of the classes are typed here; a node of another type, which
    Python would store as it is, leaves the model. *)
Definition as_str (v : json) : result string :=
  match v with JStr s => Ok s | _ => Unmodelled end.

Definition as_optional_str (v : json) : result (option string) :=
  match v with JNull => Ok None | JStr s => Ok (Some s) | _ => Unmodelled end.

Definition of_optional_str (o : option string) : json :=
  match o with Some s => JStr s | None => JNull end.

End Json.

(** ** class GitCommit *)

Module GitCommit.

Record t : Type := mk {
  id : string;
  message : string;
  parent : option string;
  second_parent : option string;
  timestamp : Datetime.datetime
}.

(** [GitCommit(commit_id, message, parent, second_parent)], run at time [now]. *)
Definition init (commit_id message : string) (parent second_parent : option string)
    (now : Datetime.datetime) : t :=
  mk commit_id message parent second_parent now.

Definition to_dict (self : t) : json :=
  JDict [ ("id", JStr (id self));
          ("message", JStr (message self));
          ("parent", Json.of_optional_str (parent self));
          ("second_parent", Json.of_optional_str (second_parent self));
          ("timestamp", JStr (Datetime.isoformat (timestamp self))) ].

(** [from_dict]: the constructor runs on the four fields as they are, its
    own timestamp is then replaced by the parsed one. The exceptions come
    first, in the order of the source; the typing of the fields comes last. *)
Definition from_dict (data : json) : result t :=
  commit_id ← Json.getitem data "id";
  message ← Json.getitem data "message";
  parent ← Json.getitem data "parent";
  second_parent ← Json.get data "second_parent";
  stamp ← Json.getitem data "timestamp";
  timestamp ← match stamp with
              | JStr s => Datetime.fromisoformat s
              | _ => Raise TypeError
              end;
  commit_id ← Json.as_str commit_id;
  message ← Json.as_str message;
  parent ← Json.as_optional_str parent;
  second_parent ← Json.as_optional_str second_parent;
  Ok (mk commit_id message parent second_parent timestamp).

End GitCommit.

(** ** class GitBranch *)

Module GitBranch.

Record t : Type := mk {
  name : string;
  head : string;
  color : string
}.

Definition colors : list string :=
  ["#2196f3"; "#4caf50"; "#9c27b0"; "#ff9800"; "#e91e63"; "#607d8b"].

(** [random.choice(colors)], the drawn index being [pick mod 6]. *)
Definition _generate_color (pick : nat) : string :=
  default "" (colors !! (pick mod 6)).

(** [GitBranch(name, head, color)]: [color or self._generate_color()]. *)
Definition init (name head : string) (color : option string) (pick : nat) : t :=
  mk name head
     (match color with
      | Some c => if decide (c = "") then _generate_color pick else c
      | None => _generate_color pick
      end).

(** [branch.head = commit_id] *)
Definition set_head (commit_id : string) (self : t) : t :=
  mk (name self) commit_id (color self).

Definition to_dict (self : t) : json :=
  JDict [ ("name", JStr (name self));
          ("head", JStr (head self));
          ("color", JStr (color self)) ].

Definition from_dict (data : json) (pick : nat) : result t :=
  name ← Json.getitem data "name";
  head ← Json.getitem data "head";
  color ← Json.getitem data "color";
  name ← Json.as_str name;
  head ← Json.as_str head;
  color ← (if Json.truthy color then Some <$> Json.as_str color else Ok None);
  Ok (init name head color pick).

End GitBranch.

(** ** class GitRepository *)

Module GitRepository.

(** [head] is the attribute that only [load_from_file] assigns; it is absent
    ([None]) on a repository built by the constructor. *)
Record t : Type := mk {
  commits : gmap string GitCommit.t;
  branches : gmap string GitBranch.t;
  current_branch : string;
  head : option json
}.

Definition set_commits (f : gmap string GitCommit.t → gmap string GitCommit.t)
    (self : t) : t :=
  mk (f (commits self)) (branches self) (current_branch self) (head self).

Definition set_branches (f : gmap string GitBranch.t → gmap string GitBranch.t)
    (self : t) : t :=
  mk (commits self) (f (branches self)) (current_branch self) (head self).

Definition set_current_branch (name : string) (self : t) : t :=
  mk (commits self) (branches self) name (head self).

(** The filesystem: the parsed content of each regular, readable JSON file
    that exists. Directories and files that are not JSON are not modelled. *)
Abbreviation files := (gmap string json).

(** What a method call leaves behind: the value returned or the exception
    raised, and the repository after the call. *)
Definition outcome (A : Type) : Type := (result A * t)%type.

(** [_initialize_repo], on the empty dicts that [__init__] has just set. *)
Definition _initialize_repo (now : Datetime.datetime) (pick : nat)
    (commits0 : gmap string GitCommit.t) (branches0 : gmap string GitBranch.t) : t :=
  let initial_commit := GitCommit.init "C0" "Initial commit" None None now in
  let commits1 := <[GitCommit.id initial_commit := initial_commit]> commits0 in
  let master_branch := GitBranch.init "master" (GitCommit.id initial_commit) None pick in
  let branches1 := <[GitBranch.name master_branch := master_branch]> branches0 in
  mk commits1 branches1 "master" None.

(** [GitRepository()] *)
Definition __init__ (now : Datetime.datetime) (pick : nat) : t :=
  _initialize_repo now pick ∅ ∅.

Definition create_commit (message : string) (now : Datetime.datetime)
    (self : t) : outcome (bool * string) :=
  match branches self !! current_branch self with
  | None =>
      (Ok (false, "Error: Current branch '" +:+ current_branch self +:+ "' not found"),
       self)
  | Some branch =>
      let parent_id := GitBranch.head branch in
      let commit_id := "C" +:+ pretty (size (commits self)) in
      let new_commit := GitCommit.init commit_id message (Some parent_id) None now in
      let self := set_commits <[commit_id := new_commit]> self in
      let self :=
        set_branches <[current_branch self := GitBranch.set_head commit_id branch]> self in
      (Ok (true, "Created commit " +:+ commit_id +:+ ": " +:+ message), self)
  end.

Definition create_branch (name : string) (pick : nat) (self : t)
    : outcome (bool * string) :=
  match branches self !! name with
  | Some _ => (Ok (false, "Error: Branch '" +:+ name +:+ "' already exists"), self)
  | None =>
      match branches self !! current_branch self with
      | None => (Raise (KeyError (current_branch self)), self)
      | Some current =>
          let current_head := GitBranch.head current in
          let new_branch := GitBranch.init name current_head None pick in
          let self := set_branches <[name := new_branch]> self in
          (Ok (true, "Created branch '" +:+ name +:+ "' at commit " +:+ current_head),
           self)
      end
  end.

Definition checkout_branch (name : string) (self : t) : outcome (bool * string) :=
  match branches self !! name with
  | None => (Ok (false, "Error: Branch '" +:+ name +:+ "' not found"), self)
  | Some _ =>
      let self := set_current_branch name self in
      (Ok (true, "Switched to branch '" +:+ name +:+ "'"), self)
  end.

Definition merge_branches (source_branch_name : string) (now : Datetime.datetime)
    (self : t) : outcome (bool * string) :=
  let target_branch := branches self !! current_branch self in
  let source_branch := branches self !! source_branch_name in
  match source_branch with
  | None =>
      (Ok (false, "Error: Branch '" +:+ source_branch_name +:+ "' not found"), self)
  | Some source =>
      match target_branch with
      | None => (Raise AttributeError, self)
      | Some target =>
          if decide (GitBranch.head target = GitBranch.head source)
          then (Ok (true, "Already up to date. Nothing to merge."), self)
          else
            let commit_id := "C" +:+ pretty (size (commits self)) in
            let message :=
              "Merge branch '" +:+ source_branch_name +:+ "' into "
              +:+ current_branch self in
            let merge_commit :=
              GitCommit.init commit_id message (Some (GitBranch.head target))
                (Some (GitBranch.head source)) now in
            let self' := set_commits <[commit_id := merge_commit]> self in
            let self' :=
              set_branches
                <[current_branch self' := GitBranch.set_head commit_id target]> self' in
            (Ok (true, "Merged '" +:+ source_branch_name +:+ "' into '"
                       +:+ current_branch self' +:+ "'"), self')
      end
  end.

(** [sep.join(lines)] *)
Fixpoint join (sep : string) (lines : list string) : string :=
  match lines with
  | [] => ""
  | [line] => line
  | line :: rest => line +:+ sep +:+ join sep rest
  end.

Definition newline : string := String (ascii_of_nat 10) EmptyString.

(** The four lines appended for one commit of the log. *)
Definition log_entry (commit : GitCommit.t) : list string :=
  [ "Commit: " +:+ GitCommit.id commit;
    "Message: " +:+ GitCommit.message commit;
    "Date: " +:+ Datetime.strftime (GitCommit.timestamp commit);
    "" ].

(** The test of [while current_commit_id:]: neither [None] nor empty. *)
Definition nonempty (current_commit_id : option string) : option string :=
  match current_commit_id with
  | Some i => if decide (i = "") then None else Some i
  | None => None
  end.

(** The [while] loop of [get_commit_log]; [fuel] bounds the number of tests
    of the loop condition, [None] is a run that needs more. *)
Fixpoint log_loop (fuel : nat) (commits : gmap string GitCommit.t)
    (current_commit_id : option string) (result : list string)
    : option (list string) :=
  match fuel with
  | O => None
  | S fuel' =>
      match nonempty current_commit_id with
      | None => Some result
      | Some i =>
          match commits !! i with
          | None => Some result
          | Some commit =>
              log_loop fuel' commits (GitCommit.parent commit)
                (result ++ log_entry commit)
          end
      end
  end.

Definition get_commit_log (fuel : nat) (self : t) : option (string * t) :=
  match branches self !! current_branch self with
  | None => Some ("Error: Current branch not found", self)
  | Some branch =>
      result ← log_loop fuel (commits self) (Some (GitBranch.head branch)) [];
      Some (match result with
            | [] => "No commits yet"
            | _ => join newline result
            end, self)
  end.

(** The dict [data] that [save_to_file] builds. *)
Definition snapshot (self : t) : json :=
  JDict [ ("commits",
           JDict (prod_map id GitCommit.to_dict <$> map_to_list (commits self)));
          ("branches",
           JDict (prod_map id GitBranch.to_dict <$> map_to_list (branches self)));
          ("current_branch", JStr (current_branch self)) ].

(** [save_to_file]. [opened] is the answer of the system to
    [open(filename, 'w')]: the call raises [OSError], and writes nothing, when
    the path is a directory, lies in a missing directory or is not writable.
    The result is what the call returns or raises, and the filesystem after
    it. *)
Definition save_to_file (filename : string) (self : t) (opened : bool) (fs : files)
    : result unit * files :=
  let data := snapshot self in
  if opened then (Ok (), <[filename := data]> fs) else (Raise OSError, fs).

(** The two [for] loops of [load_from_file]. *)
Fixpoint load_commits (items : list (string * json))
    (commits : gmap string GitCommit.t) : result (gmap string GitCommit.t) :=
  match items with
  | [] => Ok commits
  | (commit_id, commit_data) :: rest =>
      commit ← GitCommit.from_dict commit_data;
      load_commits rest (<[commit_id := commit]> commits)
  end.

Fixpoint load_branches (picks : string → nat) (items : list (string * json))
    (branches : gmap string GitBranch.t) : result (gmap string GitBranch.t) :=
  match items with
  | [] => Ok branches
  | (branch_name, branch_data) :: rest =>
      branch ← GitBranch.from_dict branch_data (picks branch_name);
      load_branches picks rest (<[branch_name := branch]> branches)
  end.

(** [load_from_file]: [now] and [pick] feed the constructor call [cls()],
    [picks] the colour drawn for a loaded branch whose colour is missing. *)
Definition load_from_file (filename : string) (now : Datetime.datetime)
    (pick : nat) (picks : string → nat) (fs : files) : result t :=
  data ← match fs !! filename with
         | Some data => Ok data
         | None => Raise (FileNotFoundError filename)
         end;
  let repo := __init__ now pick in
  let repo := set_commits (λ _, ∅) repo in
  let repo := set_branches (λ _, ∅) repo in
  commit_items ← Json.getitem data "commits" ≫= Json.items;
  commits ← load_commits commit_items (commits repo);
  let repo := set_commits (λ _, commits) repo in
  branch_items ← Json.getitem data "branches" ≫= Json.items;
  branches ← load_branches picks branch_items (branches repo);
  let repo := set_branches (λ _, branches) repo in
  current ← Json.getitem data "current_branch";
  head ← Json.getitem data "head";
  current ← Json.as_str current;
  Ok (mk (GitRepository.commits repo) (GitRepository.branches repo) current (Some head)).

End GitRepository.

(** ** The commands that change a repository *)

Inductive command : Type :=
  | Commit (message : string) (now : Datetime.datetime)
  | Branch (name : string) (pick : nat)
  | Checkout (name : string)
  | Merge (source_branch_name : string) (now : Datetime.datetime).

Definition run (cmd : command) (self : GitRepository.t)
    : GitRepository.outcome (bool * string) :=
  match cmd with
  | Commit message now => GitRepository.create_commit message now self
  | Branch name pick => GitRepository.create_branch name pick self
  | Checkout name => GitRepository.checkout_branch name self
  | Merge source now => GitRepository.merge_branches source now self
  end.

(** The repository after a sequence of commands. *)
Definition run_all (cmds : list command) (self : GitRepository.t) : GitRepository.t :=
  foldl (λ repo cmd, (run cmd repo).2) self cmds.

(** ** Vocabulary of the properties, and the repositories of the examples *)

Import GitRepository.

(** [currentBranch] names an existing branch. *)
Definition current_branch_resolves (self : GitRepository.t) : Prop :=
  is_Some (branches self !! current_branch self).

(** Every branch points at a stored commit. *)
Definition heads_resolve (self : GitRepository.t) : Prop :=
  ∀ name branch,
    branches self !! name = Some branch →
    is_Some (commits self !! GitBranch.head branch).

(** Two instants for the examples. *)
Definition noon : Datetime.datetime :=
  Datetime.mk_datetime 2024 5 17 12 0 0 0 eq_refl.

Definition later : Datetime.datetime :=
  Datetime.mk_datetime 2024 5 17 12 30 7 12345 eq_refl.

(** The repository as the constructor leaves it. *)
Definition fresh : GitRepository.t := __init__ noon 0.

(** The scenario of the specification: [branch b], [checkout b],
    [commit work], [checkout master]. *)
Definition diverged : GitRepository.t :=
  run_all [Branch "b" 1; Checkout "b"; Commit "work" later; Checkout "master"] fresh.

(** A document that names a current branch it does not define, and the
    repository [load_from_file] builds from it. *)
Definition orphan_document : json :=
  JDict [ ("commits",
           JDict [("C0", GitCommit.to_dict
                           (GitCommit.mk "C0" "Initial commit" None None noon))]);
          ("branches",
           JDict [("master", GitBranch.to_dict (GitBranch.mk "master" "C0" "#2196f3"))]);
          ("current_branch", JStr "ghost");
          ("head", JStr "C0") ].

Definition orphan : GitRepository.t :=
  GitRepository.mk
    {[ "C0" := GitCommit.mk "C0" "Initial commit" None None noon ]}
    {[ "master" := GitBranch.mk "master" "C0" "#2196f3" ]}
    "ghost" (Some (JStr "C0")).

(** First-parent history: the commits met from a reference by following
    [parent] alone, down to a commit without parent. A reference that is
    [None] (or empty, which the loop's test does not tell from [None]) ends
    the chain; so does an id under which no commit is stored. *)
Inductive first_parent_chain (commits : gmap string GitCommit.t)
    : option string → list GitCommit.t → Prop :=
  | chain_end reference :
      nonempty reference = None →
      first_parent_chain commits reference []
  | chain_dangling reference i :
      nonempty reference = Some i →
      commits !! i = None →
      first_parent_chain commits reference []
  | chain_step reference i commit chain :
      nonempty reference = Some i →
      commits !! i = Some commit →
      first_parent_chain commits (GitCommit.parent commit) chain →
      first_parent_chain commits reference (commit :: chain).

(** The text of a log that lists the commits of [chain]. *)
Definition log_text (chain : list GitCommit.t) : string :=
  match chain with
  | [] => "No commits yet"
  | _ => join newline (chain ≫= log_entry)
  end.

(** A commit without its second-parent link. *)
Definition forget_second_parent (commit : GitCommit.t) : GitCommit.t :=
  GitCommit.mk (GitCommit.id commit) (GitCommit.message commit)
    (GitCommit.parent commit) None (GitCommit.timestamp commit).

(** One turn of the loop: from a stored commit to its non-empty parent id. *)
Definition parent_step (commits : gmap string GitCommit.t) (a b : string) : Prop :=
  ∃ commit, commits !! a = Some commit ∧ nonempty (GitCommit.parent commit) = Some b.

(** No commit that the walk from [start] can meet is its own ancestor. *)
Definition acyclic_from (commits : gmap string GitCommit.t) (start : string) : Prop :=
  ∀ a, rtc (parent_step commits) start a → ¬ tc (parent_step commits) a a.

(** The repository of that scenario after [merge b], and its three commits. *)
Definition merged : GitRepository.t := (run (Merge "b" later) diverged).2.

Definition commit_C0 : GitCommit.t :=
  GitCommit.mk "C0" "Initial commit" None None noon.

Definition commit_C1 : GitCommit.t :=
  GitCommit.mk "C1" "work" (Some "C0") None later.

Definition commit_C2 : GitCommit.t :=
  GitCommit.mk "C2" "Merge branch 'b' into master" (Some "C0") (Some "C1") later.

(** A repository whose only commit names a parent that is not stored. *)
Definition truncated : GitRepository.t :=
  GitRepository.mk
    {[ "C5" := GitCommit.mk "C5" "late" (Some "C4") None noon ]}
    {[ "master" := GitBranch.mk "master" "C5" "#2196f3" ]}
    "master" None.

(** A document whose only commit is [C1], the repository that
    [load_from_file] builds from it, and that repository after one commit:
    the new commit takes the id [C1] again and is its own parent. *)
Definition lone_document : json :=
  JDict [ ("commits",
           JDict [("C1", GitCommit.to_dict (GitCommit.mk "C1" "only" None None noon))]);
          ("branches",
           JDict [("master", GitBranch.to_dict (GitBranch.mk "master" "C1" "#2196f3"))]);
          ("current_branch", JStr "master");
          ("head", JStr "C1") ].

Definition lone : GitRepository.t :=
  GitRepository.mk
    {[ "C1" := GitCommit.mk "C1" "only" None None noon ]}
    {[ "master" := GitBranch.mk "master" "C1" "#2196f3" ]}
    "master" (Some (JStr "C1")).

Definition looping : GitRepository.t := (create_commit "again" later lone).2.

(** A repository whose commit carries a timestamp of the year 999. *)
Definition ancient : GitRepository.t :=
  GitRepository.mk
    {[ "C0" := GitCommit.mk "C0" "old" None None
                 (Datetime.mk_datetime 999 1 2 3 4 5 0 eq_refl) ]}
    {[ "master" := GitBranch.mk "master" "C0" "#2196f3" ]}
    "master" None.

(** What [GitBranch.from_dict] makes of a saved branch: an empty colour is
    drawn again. *)
Definition recolor (pick : nat) (branch : GitBranch.t) : GitBranch.t :=
  GitBranch.init (GitBranch.name branch) (GitBranch.head branch)
    (Some (GitBranch.color branch)) pick.

(** A document with one more item, [head], at its end. *)
Definition with_head (value : json) (data : json) : json :=
  match data with
  | JDict items => JDict (items ++ [("head", value)])
  | _ => data
  end.

(** ** Numbering of the commits *)

(** The id that [create_commit] and [merge_branches] allocate when [k]
    commits are stored. *)
Definition commit_key (k : nat) : string := "C" +:+ pretty k.

(** A parent link that points at a commit numbered below [k]. *)
Definition older (k : nat) (link : option string) : Prop :=
  ∀ p, link = Some p → ∃ j, j < k ∧ p = commit_key j.

(** The shape of the repositories that the operations build from the
    constructor's: [n] commits stored under [C0] ... [C(n-1)], each under its
    own id with links to lower-numbered commits, [C0] being the initial
    commit made at [now0]; each branch stored under its own name, pointing at
    a stored commit and coloured from the palette; a current branch that
    exists. *)
Record numbered (now0 : Datetime.datetime) (self : GitRepository.t) : Prop := {
  numbered_keys :
    ∀ i commit, commits self !! i = Some commit →
      ∃ k, k < size (commits self) ∧ i = commit_key k
           ∧ GitCommit.id commit = i
           ∧ older k (GitCommit.parent commit)
           ∧ older k (GitCommit.second_parent commit)
           ∧ (GitCommit.parent commit = None → k = 0);
  numbered_dense :
    ∀ k, k < size (commits self) → is_Some (commits self !! commit_key k);
  numbered_root :
    commits self !! "C0" = Some (GitCommit.mk "C0" "Initial commit" None None now0);
  numbered_branches :
    ∀ name branch, branches self !! name = Some branch →
      GitBranch.name branch = name
      ∧ (∃ j, j < size (commits self) ∧ GitBranch.head branch = commit_key j)
      ∧ GitBranch.color branch ∈ GitBranch.colors;
  numbered_current : current_branch_resolves self
}.

(** ** [networkx.DiGraph], as far as [build_graph] uses it *)

Module DiGraph.

(** The nodes with their [label] attribute, if one was given, and the set of
    the edges. *)
Record t : Type := mk {
  nodes : gmap string (option string);
  edges : gset (string * string)
}.

Definition empty : t := mk ∅ ∅.

(** [G.add_node(n, label=label)] *)
Definition add_node (n label : string) (G : t) : t :=
  mk (<[n := Some label]> (nodes G)) (edges G).

(** A node that an edge mentions is added, without attribute, unless it is
    in the graph already. *)
Definition touch (n : string) (nodes : gmap string (option string))
    : gmap string (option string) :=
  match nodes !! n with
  | Some _ => nodes
  | None => <[n := None]> nodes
  end.

(** [G.add_edge(u, v)] *)
Definition add_edge (u v : string) (G : t) : t :=
  mk (touch v (touch u (nodes G))) ({[ (u, v) ]} ∪ edges G).

End DiGraph.

(** One turn of the loop of [build_graph]. *)
Definition build_graph_step (G : DiGraph.t) (item : string * GitCommit.t) : DiGraph.t :=
  let commit_id := item.1 in
  let commit := item.2 in
  let G := DiGraph.add_node commit_id commit_id G in
  let G :=
    match nonempty (GitCommit.parent commit) with
    | Some parent => DiGraph.add_edge parent commit_id G
    | None => G
    end in
  match nonempty (GitCommit.second_parent commit) with
  | Some second_parent => DiGraph.add_edge second_parent commit_id G
  | None => G
  end.

(** [GitRepository.build_graph] *)
Definition build_graph (self : GitRepository.t) : DiGraph.t :=
  foldl build_graph_step DiGraph.empty (map_to_list (commits self)).

(** A link of [commit] that [build_graph] draws from [source]. *)
Definition links_to (source : string) (commit : GitCommit.t) : Prop :=
  nonempty (GitCommit.parent commit) = Some source
  ∨ nonempty (GitCommit.second_parent commit) = Some source.

(** ** class GitSimulatorApp: the command dispatcher *)

Module GitSimulatorApp.

(** Of the application only the repository is state here; the widgets are
    not modelled. *)
Record t : Type := mk { repo : GitRepository.t }.

Definition _show_help : string :=
  join newline
    [ "Available commands:";
      "- commit [message]: Create a new commit";
      "- branch <name>: Create a new branch";
      "- checkout <name>: Switch to another branch";
      "- merge <branch>: Merge another branch into current";
      "- log: Show commit history";
      "- clear: Clear terminal output";
      "- save [filename]: Save repository to file";
      "- load <filename>: Load repository from file";
      "- help: Show this help message" ].

(** A dict key whose [repr] is the key between single quotes: printable
    ASCII without quote or backslash. *)
Definition plain (key : string) : bool :=
  forallb (λ c, let n := nat_of_ascii c in
                (32 <=? n) && (n <? 127) && negb (n =? 39) && negb (n =? 92))%nat
          (String.list_ascii_of_string key).

(** [str(e)], for the exception whose text does not depend on the
    interpreter: [str(KeyError(key))] is [repr(key)]. *)
Definition str_exn (e : exn) : option string :=
  match e with
  | KeyError key => if plain key then Some ("'" +:+ key +:+ "'") else None
  | _ => None
  end.

(** [self.repo.op(...)[1]]: the text of the returned pair, or the exception
    that the call raised. *)
Definition text_of (out : GitRepository.outcome (bool * string))
    : result string * t :=
  (snd <$> out.1, mk out.2).

(** [_process_command(cmd, args)]. The inputs [now], [pick], [picks] and
    [opened] are those of the repository operation that the command runs,
    [fuel] bounds the loop of the log, [fs] is the filesystem. [None]: the
    log needs more fuel. An exception that leaves the method is [Raise]:
    only [load] has a handler. *)
Definition _process_command (fuel : nat) (now : Datetime.datetime) (pick : nat)
    (picks : string → nat) (opened : bool) (cmd : string) (args : list string)
    (self : t) (fs : files) : option (result string * (t * files)) :=
  if decide (cmd = "help") then Some (Ok _show_help, (self, fs))
  else if decide (cmd = "commit") then
    let message := match args with [] => "New commit" | _ => join " " args end in
    let out := text_of (create_commit message now (repo self)) in
    Some (out.1, (out.2, fs))
  else if decide (cmd = "branch") then
    match args with
    | [] => Some (Ok "Error: Branch name required", (self, fs))
    | name :: _ =>
        let out := text_of (create_branch name pick (repo self)) in
        Some (out.1, (out.2, fs))
    end
  else if decide (cmd = "checkout") then
    match args with
    | [] => Some (Ok "Error: Branch name required", (self, fs))
    | name :: _ =>
        let out := text_of (checkout_branch name (repo self)) in
        Some (out.1, (out.2, fs))
    end
  else if decide (cmd = "merge") then
    match args with
    | [] => Some (Ok "Error: Source branch required", (self, fs))
    | name :: _ =>
        let out := text_of (merge_branches name now (repo self)) in
        Some (out.1, (out.2, fs))
    end
  else if decide (cmd = "log") then
    '(text, repo') ← get_commit_log fuel (repo self);
    Some (Ok text, (mk repo', fs))
  else if decide (cmd = "clear") then Some (Ok "", (self, fs))
  else if decide (cmd = "save") then
    let filename := match args with filename :: _ => filename | [] => "git_repo.json" end in
    let saved := save_to_file filename (repo self) opened fs in
    Some (_ ← saved.1; Ok ("Repository saved to " +:+ filename), (self, saved.2))
  else if decide (cmd = "load") then
    match args with
    | [] => Some (Ok "Error: Filename required", (self, fs))
    | filename :: _ =>
        match fs !! filename with
        | None => Some (Ok ("Error: File " +:+ filename +:+ " not found"), (self, fs))
        | Some _ =>
            match load_from_file filename now pick picks fs with
            | Ok loaded =>
                Some (Ok ("Repository loaded from " +:+ filename), (mk loaded, fs))
            | Raise e =>
                Some (match str_exn e with
                      | Some text => Ok ("Error loading repository: " +:+ text)
                      | None => Unmodelled
                      end, (self, fs))
            | Unmodelled => Some (Unmodelled, (self, fs))
            end
        end
    end
  else
    Some (Ok ("Unknown command: " +:+ cmd
              +:+ ". Type 'help' for available commands."), (self, fs)).

End GitSimulatorApp.

(** * Properties *)

(** ** String concatenation *)

Lemma app_cons (c : ascii) (s t : string) : String c s +:+ t = String c (s +:+ t).
Proof. reflexivity. Qed.

Lemma app_empty_l (t : string) : "" +:+ t = t.
Proof. reflexivity. Qed.

Lemma app_empty_r (s : string) : s +:+ "" = s.
Proof. induction s as [|c s IH]; [done | by rewrite app_cons, IH]. Qed.

(** ** ISO timestamps survive printing and parsing *)

Module DatetimeFacts.
Import Datetime.

Lemma datetime_eq (t : datetime) y mo d h mi se us ok :
  year t = y → month t = mo → day t = d → hour t = h → minute t = mi →
  second t = se → microsecond t = us →
  mk_datetime y mo d h mi se us ok = t.
Proof.
  destruct t as [y' mo' d' h' mi' se' us' ok']; simpl.
  intros <- <- <- <- <- <- <-. f_equal.
  apply UIP_dec, bool_dec.
Qed.

Lemma digit_value (d : N) :
  is_digit (digit d) = true ∧ (N_of_ascii (digit d) - 48 = d mod 10)%N.
Proof.
  unfold is_digit, digit.
  assert (d mod 10 < 10)%N as Hlt by (apply N.mod_lt; lia).
  generalize dependent (d mod 10)%N; intros k Hlt.
  rewrite N_ascii_embedding by lia.
  split; [apply andb_true_intro; split; apply N.leb_le; lia | lia].
Qed.

Lemma take_digits_zfill (w : nat) (n acc : N) (rest : string) :
  take_digits w acc (zfill w n +:+ rest)
  = Some ((acc * 10 ^ N.of_nat w + n mod 10 ^ N.of_nat w)%N, rest).
Proof.
  revert acc; induction w as [|w IH]; intros acc.
  - simpl. rewrite N.mod_1_r. do 2 f_equal. lia.
  - simpl zfill. rewrite app_cons. simpl take_digits.
    destruct (digit_value (n / 10 ^ N.of_nat w)) as [-> ->].
    rewrite IH. do 2 f_equal.
    rewrite Nat2N.inj_succ, N.pow_succ_r'.
    rewrite (N.mul_comm 10 (10 ^ N.of_nat w)), N.Div0.mod_mul_r. ring.
Qed.

Lemma take_digits_small (w : nat) (n : N) (rest : string) :
  (n < 10 ^ N.of_nat w)%N →
  take_digits w 0 (zfill w n +:+ rest) = Some (n, rest).
Proof.
  intros Hn. rewrite take_digits_zfill, N.mod_small by done.
  do 2 f_equal.
Qed.

Lemma in_range_bounds (t : datetime) :
  (year t < 10 ^ N.of_nat 4 ∧ month t < 10 ^ N.of_nat 2 ∧
   day t < 10 ^ N.of_nat 2 ∧ hour t < 10 ^ N.of_nat 2 ∧
   minute t < 10 ^ N.of_nat 2 ∧ second t < 10 ^ N.of_nat 2 ∧
   microsecond t < 10 ^ N.of_nat 6)%N.
Proof.
  destruct t as [y mo d h mi se us ok]; simpl.
  unfold in_range in ok.
  rewrite !andb_true_iff, !N.leb_le, !N.ltb_lt in ok.
  assert (days_in_month y mo <= 31)%N
    by (unfold days_in_month; repeat case_match; lia).
  change (10 ^ N.of_nat 4)%N with 10000%N.
  change (10 ^ N.of_nat 2)%N with 100%N.
  change (10 ^ N.of_nat 6)%N with 1000000%N.
  lia.
Qed.

Lemma expect_cons (c : ascii) (rest : string) :
  expect c (String c EmptyString +:+ rest) = Some rest.
Proof. rewrite app_cons, app_empty_l. simpl. by rewrite Ascii.eqb_refl. Qed.

Ltac parse_field :=
  rewrite take_digits_small by done; cbn [mbind option_bind];
  try (rewrite expect_cons; cbn [mbind option_bind]).

Lemma parse_layout_isoformat (t : datetime) :
  parse_layout (isoformat t)
  = Some (year t, month t, day t, hour t, minute t, second t, microsecond t).
Proof.
  destruct (in_range_bounds t) as (Hy & Hmo & Hd & Hh & Hmi & Hse & Hus).
  unfold parse_layout, isoformat.
  do 6 parse_field.
  destruct (N.eqb_spec (microsecond t) 0) as [Hz|Hz].
  - rewrite Hz. reflexivity.
  - unfold parse_fraction. rewrite app_cons, app_empty_l.
    cbn [expect Ascii.eqb Bool.eqb mbind option_bind].
    rewrite <- (app_empty_r (zfill 6 (microsecond t))).
    by rewrite take_digits_small.
Qed.

(** [fromisoformat] inverts [isoformat]. *)
Lemma fromisoformat_isoformat (t : datetime) :
  fromisoformat (isoformat t) = Ok t.
Proof.
  unfold fromisoformat. rewrite parse_layout_isoformat.
  destruct (bool_dec _ true) as [ok|bad].
  - f_equal. by apply datetime_eq.
  - destruct bad. apply datetime_ok.
Qed.

End DatetimeFacts.

(** ** The in-memory operations *)

(** C4. A repository built by the constructor holds exactly the commit
    [C0] ("Initial commit", no parent, no second parent) and exactly the
    branch [master], whose head is [C0]; [master] is the current branch. *)
Theorem fresh_repository (now : Datetime.datetime) (pick : nat) :
  commits (__init__ now pick)
    = {[ "C0" := GitCommit.mk "C0" "Initial commit" None None now ]}
  ∧ branches (__init__ now pick)
    = {[ "master" := GitBranch.mk "master" "C0" (GitBranch._generate_color pick) ]}
  ∧ current_branch (__init__ now pick) = "master"
  ∧ size (commits (__init__ now pick)) = 1
  ∧ size (branches (__init__ now pick)) = 1.
Proof.
  repeat split; reflexivity.
Qed.

(** C5. When the current branch resolves, [create_commit] succeeds: the new
    id is "C" followed by the number of commits, the new commit has that id,
    the given message, the head of the current branch as parent and no
    second parent, it is stored under its id, and only the current branch
    moves, to the new id. On a fresh repository the commit is [C1], its
    parent [C0], and [master] points at [C1]. *)
Theorem create_commit_spec :
  (∀ (self : GitRepository.t) (message : string) (now : Datetime.datetime)
     (branch : GitBranch.t),
     branches self !! current_branch self = Some branch →
     let commit_id := "C" +:+ pretty (size (commits self)) in
     let new_commit :=
       GitCommit.mk commit_id message (Some (GitBranch.head branch)) None now in
     ∃ self',
       create_commit message now self
         = (Ok (true, "Created commit " +:+ commit_id +:+ ": " +:+ message), self')
       ∧ commits self' = <[commit_id := new_commit]> (commits self)
       ∧ commits self' !! commit_id = Some new_commit
       ∧ branches self' !! current_branch self
           = Some (GitBranch.mk (GitBranch.name branch) commit_id (GitBranch.color branch))
       ∧ (∀ other, other ≠ current_branch self →
            branches self' !! other = branches self !! other)
       ∧ current_branch self' = current_branch self
       ∧ head self' = head self)
  ∧ (∀ (message : string) (now0 now : Datetime.datetime) (pick : nat),
       ∃ self',
         create_commit message now (__init__ now0 pick)
           = (Ok (true, "Created commit C1: " +:+ message), self')
         ∧ commits self' !! "C1"
             = Some (GitCommit.mk "C1" message (Some "C0") None now)
         ∧ GitBranch.head <$> branches self' !! "master" = Some "C1"
         ∧ size (commits self') = 2).
Proof.
  split.
  - intros self message now branch Hcur commit_id new_commit.
    unfold create_commit. rewrite Hcur. eexists. split; [reflexivity|].
    simpl. repeat split.
    + apply lookup_insert_eq.
    + apply lookup_insert_eq.
    + intros other Hne. by apply lookup_insert_ne.
  - intros message now0 now pick. eexists. split; [reflexivity|].
    repeat split.
Qed.

Lemma create_commit_spec_witness :
  ∃ self',
    create_commit "x" later fresh = (Ok (true, "Created commit C1: x"), self')
    ∧ commits self' !! "C1" = Some (GitCommit.mk "C1" "x" (Some "C0") None later).
Proof.
  destruct (proj1 create_commit_spec fresh "x" later
              (GitBranch.mk "master" "C0" "#2196f3") eq_refl)
    as (self' & Hrun & _ & Hnew & _).
  exists self'. split; [exact Hrun | exact Hnew].
Defined.

(** C6, amended. When the source branch exists and the current branch
    resolves: with equal heads [merge_branches] reports
    success and changes nothing, however often it is repeated; with
    different heads it stores one new commit, whose parent is the head of
    the current branch, whose second parent is the head of the source branch
    and whose message is "Merge branch '<source>' into <current>", and moves
    the current branch alone to it: the source branch keeps its head. *)
Theorem merge_branches_spec :
  ∀ (self : GitRepository.t) (source_name : string) (now : Datetime.datetime)
    (source target : GitBranch.t),
    branches self !! source_name = Some source →
    branches self !! current_branch self = Some target →
    (GitBranch.head target = GitBranch.head source →
       merge_branches source_name now self
         = (Ok (true, "Already up to date. Nothing to merge."), self)
       ∧ ∀ now', merge_branches source_name now' (merge_branches source_name now self).2
                 = (Ok (true, "Already up to date. Nothing to merge."), self))
    ∧ (GitBranch.head target ≠ GitBranch.head source →
       let commit_id := "C" +:+ pretty (size (commits self)) in
       let merge_commit :=
         GitCommit.mk commit_id
           ("Merge branch '" +:+ source_name +:+ "' into " +:+ current_branch self)
           (Some (GitBranch.head target)) (Some (GitBranch.head source)) now in
       ∃ self',
         merge_branches source_name now self
           = (Ok (true, "Merged '" +:+ source_name +:+ "' into '"
                        +:+ current_branch self +:+ "'"), self')
         ∧ commits self' = <[commit_id := merge_commit]> (commits self)
         ∧ branches self' !! current_branch self
             = Some (GitBranch.mk (GitBranch.name target) commit_id
                       (GitBranch.color target))
         ∧ (∀ other, other ≠ current_branch self →
              branches self' !! other = branches self !! other)
         ∧ branches self' !! source_name = Some source
         ∧ current_branch self' = current_branch self
         ∧ head self' = head self).
Proof.
  intros self source_name now source target Hsrc Hcur. split.
  - intros Heq.
    assert (∀ now', merge_branches source_name now' self
                    = (Ok (true, "Already up to date. Nothing to merge."), self))
      as Hnoop.
    { intros now'. unfold merge_branches. rewrite Hsrc, Hcur.
      by destruct (decide _). }
    split; [apply Hnoop|]. intros now'. rewrite (Hnoop now). apply Hnoop.
  - intros Hne commit_id merge_commit.
    unfold merge_branches. rewrite Hsrc, Hcur.
    destruct (decide _) as [Heq|_]; [done|].
    eexists. split; [reflexivity|]. simpl.
    assert (source_name ≠ current_branch self) as Hdiff.
    { intros ->. rewrite Hsrc in Hcur. by simplify_eq. }
    repeat split.
    + apply lookup_insert_eq.
    + intros other Hother. by apply lookup_insert_ne.
    + by rewrite lookup_insert_ne.
Qed.

Lemma merge_branches_spec_witness :
  ∃ self',
    merge_branches "b" later diverged = (Ok (true, "Merged 'b' into 'master'"), self')
    ∧ commits self'
      = <["C2" := GitCommit.mk "C2" "Merge branch 'b' into master"
                    (Some "C0") (Some "C1") later]> (commits diverged)
    ∧ branches self' !! "b" = Some (GitBranch.mk "b" "C1" "#4caf50").
Proof.
  destruct (merge_branches_spec diverged "b" later
              (GitBranch.mk "b" "C1" "#4caf50")
              (GitBranch.mk "master" "C0" "#2196f3") eq_refl eq_refl)
    as [_ Hmerge].
  destruct Hmerge as (self' & Hrun & Hcommits & _ & _ & Hsource & _).
  - simpl. discriminate.
  - exists self'. split; [exact Hrun | split; [exact Hcommits | exact Hsource]].
Defined.

(** C8, amended. [create_branch] on a name that is taken reports failure
    and leaves the repository as it was, in every state. On a free name, when
    the current branch resolves, it succeeds and stores one new branch under that name, whose head is the
    head of the current branch; the other branches, the commits and the
    current branch stay as they were. *)
Theorem create_branch_spec :
  ∀ (self : GitRepository.t) (name : string) (pick : nat),
    (is_Some (branches self !! name) →
       create_branch name pick self
         = (Ok (false, "Error: Branch '" +:+ name +:+ "' already exists"), self))
    ∧ (branches self !! name = None →
       ∀ current, branches self !! current_branch self = Some current →
       ∃ self',
         create_branch name pick self
           = (Ok (true, "Created branch '" +:+ name +:+ "' at commit "
                        +:+ GitBranch.head current), self')
         ∧ branches self'
           = <[name := GitBranch.mk name (GitBranch.head current)
                         (GitBranch._generate_color pick)]> (branches self)
         ∧ GitBranch.head <$> branches self' !! name = Some (GitBranch.head current)
         ∧ (∀ other, other ≠ name → branches self' !! other = branches self !! other)
         ∧ size (branches self') = S (size (branches self))
         ∧ commits self' = commits self
         ∧ current_branch self' = current_branch self
         ∧ head self' = head self).
Proof.
  intros self name pick. split.
  - intros [taken Htaken]. unfold create_branch. by rewrite Htaken.
  - intros Hfree current Hcur. unfold create_branch. rewrite Hfree, Hcur.
    eexists. split; [reflexivity|]. simpl. repeat split.
    + by rewrite lookup_insert_eq.
    + intros other Hother. by apply lookup_insert_ne.
    + by apply map_size_insert_None.
Qed.

Lemma create_branch_spec_witness :
  create_branch "master" 3 fresh
    = (Ok (false, "Error: Branch 'master' already exists"), fresh)
  ∧ ∃ self',
      create_branch "feature" 3 fresh
        = (Ok (true, "Created branch 'feature' at commit C0"), self')
      ∧ GitBranch.head <$> branches self' !! "feature" = Some "C0"
      ∧ size (branches self') = 2.
Proof.
  split.
  - apply (proj1 (create_branch_spec fresh "master" 3)). by eexists.
  - destruct (proj2 (create_branch_spec fresh "feature" 3) eq_refl
                (GitBranch.mk "master" "C0" "#2196f3") eq_refl)
      as (self' & Hrun & _ & Hhead & _ & Hsize & _).
    exists self'. split; [exact Hrun | split; [exact Hhead | exact Hsize]].
Defined.

(** ** Calls that fail *)

Lemma checkout_branch_unknown (self : GitRepository.t) (name : string) :
  branches self !! name = None →
  checkout_branch name self
    = (Ok (false, "Error: Branch '" +:+ name +:+ "' not found"), self).
Proof. intros Hnone. unfold checkout_branch. by rewrite Hnone. Qed.

Lemma merge_branches_unknown (self : GitRepository.t) (source_name : string)
    (now : Datetime.datetime) :
  branches self !! source_name = None →
  merge_branches source_name now self
    = (Ok (false, "Error: Branch '" +:+ source_name +:+ "' not found"), self).
Proof. intros Hnone. unfold merge_branches. by rewrite Hnone. Qed.

Lemma create_commit_without_current (self : GitRepository.t) (message : string)
    (now : Datetime.datetime) :
  branches self !! current_branch self = None →
  create_commit message now self
    = (Ok (false, "Error: Current branch '" +:+ current_branch self +:+ "' not found"),
       self).
Proof. intros Hnone. unfold create_commit. by rewrite Hnone. Qed.

Lemma get_commit_log_without_current (self : GitRepository.t) (fuel : nat) :
  branches self !! current_branch self = None →
  get_commit_log fuel self = Some ("Error: Current branch not found", self).
Proof. intros Hnone. unfold get_commit_log. by rewrite Hnone. Qed.

(** The two operations that read the current branch without a test. *)
Lemma create_branch_without_current (self : GitRepository.t) (name : string)
    (pick : nat) :
  branches self !! name = None →
  branches self !! current_branch self = None →
  create_branch name pick self = (Raise (KeyError (current_branch self)), self).
Proof. intros Hfree Hnone. unfold create_branch. by rewrite Hfree, Hnone. Qed.

Lemma merge_branches_without_current (self : GitRepository.t) (source_name : string)
    (now : Datetime.datetime) :
  is_Some (branches self !! source_name) →
  branches self !! current_branch self = None →
  merge_branches source_name now self = (Raise AttributeError, self).
Proof.
  intros [source Hsrc] Hnone. unfold merge_branches. by rewrite Hsrc, Hnone.
Qed.

(** No in-memory operation changes the repository on a call that does not
    return [True]. *)
Lemma run_failure_keeps_state (cmd : command) (self : GitRepository.t) :
  (∀ text, (run cmd self).1 ≠ Ok (true, text)) → (run cmd self).2 = self.
Proof.
  destruct cmd as [message now|name pick|name|source now]; simpl;
    unfold create_commit, create_branch, checkout_branch, merge_branches;
    repeat case_match; simpl; intros Hfail; try done;
    by destruct (Hfail _ eq_refl).
Qed.

Lemma load_orphan :
  load_from_file "repo.json" later 4 (λ _, 0) {[ "repo.json" := orphan_document ]}
  = Ok orphan.
Proof. vm_compute. reflexivity. Qed.

(** C6 as stated fails: the source branch [master] exists in the loaded
    repository [orphan], and [merge_branches] neither reports "up to date"
    nor creates a commit: it raises. *)
Lemma merge_branches_needs_current_branch :
  load_from_file "repo.json" later 4 (λ _, 0) {[ "repo.json" := orphan_document ]}
    = Ok orphan
  ∧ is_Some (branches orphan !! "master")
  ∧ merge_branches "master" later orphan = (Raise AttributeError, orphan)
  ∧ ¬ ∃ text self', merge_branches "master" later orphan = (Ok (true, text), self').
Proof.
  split; [exact load_orphan|]. split; [by eexists|].
  assert (merge_branches "master" later orphan = (Raise AttributeError, orphan))
    as Hraise by (apply merge_branches_without_current; [by eexists | reflexivity]).
  split; [exact Hraise|]. intros (text & self' & Hok). by rewrite Hraise in Hok.
Qed.

(** C8 as stated fails: the name [feature] is free in the loaded repository
    [orphan], and [create_branch] does not succeed: it raises. *)
Lemma create_branch_needs_current_branch :
  load_from_file "repo.json" later 4 (λ _, 0) {[ "repo.json" := orphan_document ]}
    = Ok orphan
  ∧ branches orphan !! "feature" = None
  ∧ create_branch "feature" 0 orphan = (Raise (KeyError "ghost"), orphan)
  ∧ ¬ ∃ text self', create_branch "feature" 0 orphan = (Ok (true, text), self').
Proof.
  split; [exact load_orphan|]. split; [reflexivity|].
  assert (create_branch "feature" 0 orphan = (Raise (KeyError "ghost"), orphan))
    as Hraise by (by apply create_branch_without_current).
  split; [exact Hraise|]. intros (text & self' & Hok). by rewrite Hraise in Hok.
Qed.

(** C2, at the input where it fails. The repository loaded from
    [orphan_document] has a current branch that does not resolve; on it
    [create_branch] with a free name raises [KeyError] and [merge_branches]
    with an existing source raises [AttributeError], where [create_commit]
    and [get_commit_log] return their error message. The state is
    unchanged in all four calls. *)
Theorem unresolved_current_branch_raises :
  load_from_file "repo.json" later 4 (λ _, 0) {[ "repo.json" := orphan_document ]}
    = Ok orphan
  ∧ branches orphan !! current_branch orphan = None
  ∧ create_branch "feature" 0 orphan = (Raise (KeyError "ghost"), orphan)
  ∧ merge_branches "master" later orphan = (Raise AttributeError, orphan)
  ∧ create_commit "x" later orphan
    = (Ok (false, "Error: Current branch 'ghost' not found"), orphan)
  ∧ get_commit_log 1 orphan = Some ("Error: Current branch not found", orphan).
Proof.
  split; [exact load_orphan|].
  split; [reflexivity|].
  split; [by apply create_branch_without_current|].
  split; [apply merge_branches_without_current; [by eexists | reflexivity]|].
  split; [by apply create_commit_without_current|].
  by apply get_commit_log_without_current.
Qed.

(** ** Invariants of the reachable states *)

Lemma run_all_invariant (P : GitRepository.t → Prop) :
  (∀ cmd self, P self → P (run cmd self).2) →
  ∀ cmds self, P self → P (run_all cmds self).
Proof.
  intros Hstep cmds. induction cmds as [|cmd cmds IH]; intros self HP; [done|].
  apply IH, Hstep, HP.
Qed.

Lemma run_keeps_current_branch (cmd : command) (self : GitRepository.t) :
  current_branch_resolves self → current_branch_resolves (run cmd self).2.
Proof.
  unfold current_branch_resolves. intros [current Hcur].
  destruct cmd as [message now|name pick|name|source now]; simpl.
  - unfold create_commit. rewrite Hcur. simpl. rewrite lookup_insert_eq. by eexists.
  - unfold create_branch. destruct (branches self !! name) eqn:Hname; simpl.
    + by eexists.
    + rewrite Hcur. simpl. rewrite lookup_insert_ne by congruence. by eexists.
  - unfold checkout_branch. destruct (branches self !! name) eqn:Hname; simpl.
    + rewrite Hname. by eexists.
    + by eexists.
  - unfold merge_branches. rewrite Hcur.
    destruct (branches self !! source) eqn:Hsrc; simpl; [|by eexists].
    destruct (decide _); simpl; [by eexists|].
    rewrite lookup_insert_eq. by eexists.
Qed.

Lemma run_keeps_heads (cmd : command) (self : GitRepository.t) :
  heads_resolve self → heads_resolve (run cmd self).2.
Proof.
  unfold heads_resolve. intros Hinv.
  destruct cmd as [message now|name pick|name|source now]; simpl.
  - unfold create_commit.
    destruct (branches self !! current_branch self) as [branch|] eqn:Hcur;
      simpl; [|done].
    intros other b. rewrite lookup_insert. case_decide.
    + intros [= <-]. simpl. rewrite lookup_insert_eq. by eexists.
    + intros Hother. rewrite lookup_insert_is_Some'. right. by eapply Hinv.
  - unfold create_branch. destruct (branches self !! name) eqn:Hname; simpl; [done|].
    destruct (branches self !! current_branch self) as [current|] eqn:Hcur;
      simpl; [|done].
    intros other b. rewrite lookup_insert. case_decide.
    + intros [= <-]. simpl. by eapply Hinv.
    + by apply Hinv.
  - unfold checkout_branch. by destruct (branches self !! name).
  - unfold merge_branches.
    destruct (branches self !! source) as [src|] eqn:Hsrc; simpl; [|done].
    destruct (branches self !! current_branch self) as [target|] eqn:Hcur;
      simpl; [|done].
    destruct (decide _); simpl; [done|].
    intros other b. rewrite lookup_insert. case_decide.
    + intros [= <-]. simpl. rewrite lookup_insert_eq. by eexists.
    + intros Hother. rewrite lookup_insert_is_Some'. right. by eapply Hinv.
Qed.

(** C9. The heads resolve in the fresh repository, every in-memory
    operation keeps them resolving (a head is only ever set to an id that
    is a key of [commits] after the call), and so they resolve in every
    state reached from the fresh repository by these operations. *)
Theorem branch_heads_resolve :
  (∀ now pick, heads_resolve (__init__ now pick))
  ∧ (∀ cmd self, heads_resolve self → heads_resolve (run cmd self).2)
  ∧ (∀ cmds now pick, heads_resolve (run_all cmds (__init__ now pick))).
Proof.
  assert (∀ now pick, heads_resolve (__init__ now pick)) as Hinit.
  { intros now pick name branch. unfold __init__, _initialize_repo. simpl.
    rewrite lookup_insert. case_decide; [|by rewrite lookup_empty].
    intros [= <-]. simpl. rewrite lookup_insert_eq. by eexists. }
  split; [exact Hinit|]. split; [exact run_keeps_heads|].
  intros cmds now pick. apply run_all_invariant; [exact run_keeps_heads|apply Hinit].
Qed.

Lemma branch_heads_resolve_witness :
  heads_resolve (run (Merge "b" later) diverged).2.
Proof.
  apply (proj1 (proj2 branch_heads_resolve)).
  apply (proj2 (proj2 branch_heads_resolve)
           [Branch "b" 1; Checkout "b"; Commit "work" later; Checkout "master"]
           noon 0).
Defined.

(** ** Loading does not validate the current branch *)

Lemma bind_Ok {A B : Type} (m : result A) (k : A → result B) (b : B) :
  m ≫= k = Ok b → ∃ a, m = Ok a ∧ k a = Ok b.
Proof. destruct m as [a| |]; simpl; [by exists a | done | done]. Qed.

Lemma load_branches_keys (picks : string → nat) (items : list (string * json))
    (acc loaded : gmap string GitBranch.t) :
  load_branches picks items acc = Ok loaded →
  ∀ name, is_Some (loaded !! name) ↔ name ∈ items.*1 ∨ is_Some (acc !! name).
Proof.
  revert acc. induction items as [|[branch_name branch_data] rest IH];
    intros acc Hload name.
  - simpl in Hload. injection Hload as <-. simpl. split; [by right|].
    intros [Hin|Hacc]; [by apply elem_of_nil in Hin | done].
  - simpl in Hload. apply bind_Ok in Hload as (branch & _ & Hrest).
    rewrite (IH _ Hrest name), lookup_insert_is_Some. simpl.
    rewrite elem_of_cons. destruct (decide (branch_name = name)) as [->|Hne].
    + split; intros _; [by left; left | by right; left].
    + split.
      * intros [Hin|[Heq|[_ Hacc]]]; [by left; right | done | by right].
      * intros [[Heq|Hin]|Hacc]; [done | by left | by right; right].
Qed.

(** C3 as stated fails: [load_from_file] returns a repository whose current
    branch is not one of its branches. *)
Lemma load_breaks_current_branch :
  load_from_file "repo.json" later 4 (λ _, 0) {[ "repo.json" := orphan_document ]}
    = Ok orphan
  ∧ ¬ current_branch_resolves orphan.
Proof.
  split; [vm_compute; reflexivity|].
  unfold current_branch_resolves. intros [branch Hbranch]. discriminate Hbranch.
Qed.

(** C3, amended. In every state reached from the fresh repository by the
    in-memory operations the current branch is a key of [branches], and each
    of these operations keeps it so.
    [load_from_file] takes [current_branch] from the document as it is: the
    current branch of the repository it returns is a key of the loaded
    branches exactly when the document's [branches] has an item of that
    name. *)
Theorem current_branch_invariant :
  (∀ cmds now pick, current_branch_resolves (run_all cmds (__init__ now pick)))
  ∧ (∀ cmd self, current_branch_resolves self →
                 current_branch_resolves (run cmd self).2)
  ∧ (∀ filename now pick picks (fs : files) repo,
       load_from_file filename now pick picks fs = Ok repo →
       ∃ data branch_items,
         fs !! filename = Some data
         ∧ Json.getitem data "current_branch" = Ok (JStr (current_branch repo))
         ∧ Json.getitem data "branches" = Ok (JDict branch_items)
         ∧ (current_branch_resolves repo ↔ current_branch repo ∈ branch_items.*1)).
Proof.
  split.
  - intros cmds now pick.
    apply run_all_invariant; [exact run_keeps_current_branch|].
    unfold current_branch_resolves. by eexists.
  - split; [exact run_keeps_current_branch|].
    intros filename now pick picks fs repo Hload. unfold load_from_file in Hload.
    destruct (fs !! filename) as [data|] eqn:Hfile; [|done].
    apply bind_Ok in Hload as (data' & [= <-] & Hload).
    apply bind_Ok in Hload as (commit_items & _ & Hload).
    apply bind_Ok in Hload as (loaded_commits & _ & Hload).
    apply bind_Ok in Hload as (branch_items & Hitems & Hload).
    apply bind_Ok in Hload as (loaded_branches & Hbranches & Hload).
    apply bind_Ok in Hload as (current & Hcurrent & Hload).
    apply bind_Ok in Hload as (head_value & _ & Hload).
    apply bind_Ok in Hload as (current_name & Hname & [= <-]).
    apply bind_Ok in Hitems as (branches_node & Hnode & Hitems).
    destruct branches_node; try done. injection Hitems as ->.
    destruct current; try done. injection Hname as ->.
    exists data, branch_items. repeat split; try done.
    + intros Hres. apply (load_branches_keys _ _ _ _ Hbranches) in Hres.
      destruct Hres as [Hin|[? Hempty]]; [done|]. simpl in Hempty.
      by rewrite lookup_empty in Hempty.
    + intros Hin. apply (load_branches_keys _ _ _ _ Hbranches). by left.
Qed.

Lemma current_branch_invariant_witness :
  current_branch_resolves diverged
  ∧ ∃ data branch_items,
      ({[ "repo.json" := orphan_document ]} : files) !! "repo.json" = Some data
      ∧ Json.getitem data "current_branch" = Ok (JStr "ghost")
      ∧ Json.getitem data "branches" = Ok (JDict branch_items)
      ∧ (current_branch_resolves orphan ↔ "ghost" ∈ branch_items.*1).
Proof.
  split.
  - apply (proj1 current_branch_invariant
             [Branch "b" 1; Checkout "b"; Commit "work" later; Checkout "master"]
             noon 0).
  - apply (proj2 (proj2 current_branch_invariant) "repo.json" later 4 (λ _, 0)
             {[ "repo.json" := orphan_document ]} orphan).
    vm_compute. reflexivity.
Defined.

(** ** The commit log *)

Lemma log_loop_chain (commits : gmap string GitCommit.t) (reference : option string)
    (chain : list GitCommit.t) :
  first_parent_chain commits reference chain →
  ∀ fuel lines, length chain < fuel →
    log_loop fuel commits reference lines = Some (lines ++ (chain ≫= log_entry)).
Proof.
  induction 1 as [reference Hend|reference i Hi Hnone
                  |reference i commit chain Hi Hcommit _ IH];
    intros fuel lines Hfuel.
  - destruct fuel as [|fuel]; [simpl in Hfuel; lia|].
    simpl. rewrite Hend. by rewrite app_nil_r.
  - destruct fuel as [|fuel]; [simpl in Hfuel; lia|].
    simpl. rewrite Hi, Hnone. by rewrite app_nil_r.
  - destruct fuel as [|fuel]; [simpl in Hfuel; lia|].
    simpl. rewrite Hi, Hcommit. rewrite IH by (simpl in Hfuel; lia).
    by rewrite <- app_assoc.
Qed.

Lemma log_loop_returns_chain (commits : gmap string GitCommit.t) (fuel : nat) :
  ∀ reference lines result,
    log_loop fuel commits reference lines = Some result →
    ∃ chain, first_parent_chain commits reference chain
             ∧ result = lines ++ (chain ≫= log_entry).
Proof.
  induction fuel as [|fuel IH]; intros reference lines result Hrun; [done|].
  simpl in Hrun. destruct (nonempty reference) as [i|] eqn:Hi.
  - destruct (commits !! i) as [commit|] eqn:Hcommit.
    + apply IH in Hrun as (chain & Hchain & ->).
      exists (commit :: chain). split; [by eapply chain_step|].
      by rewrite <- app_assoc.
    + injection Hrun as <-. exists []. split; [by eapply chain_dangling|].
      by rewrite app_nil_r.
  - injection Hrun as <-. exists []. split; [by apply chain_end|].
    by rewrite app_nil_r.
Qed.

Lemma log_loop_forget_second_parent (commits : gmap string GitCommit.t) (fuel : nat) :
  ∀ reference lines,
    log_loop fuel (forget_second_parent <$> commits) reference lines
    = log_loop fuel commits reference lines.
Proof.
  induction fuel as [|fuel IH]; intros reference lines; [done|].
  simpl. destruct (nonempty reference) as [i|]; [|done].
  rewrite lookup_fmap. destruct (commits !! i) as [commit|]; [|done].
  simpl. apply IH.
Qed.

Lemma log_loop_more_fuel (commits : gmap string GitCommit.t) (fuel : nat) :
  ∀ reference lines result,
    log_loop fuel commits reference lines = Some result →
    ∀ fuel', fuel ≤ fuel' → log_loop fuel' commits reference lines = Some result.
Proof.
  induction fuel as [|fuel IH]; intros reference lines result Hrun fuel' Hle;
    [done|].
  destruct fuel' as [|fuel']; [lia|].
  simpl in *. destruct (nonempty reference) as [i|]; [|done].
  destruct (commits !! i) as [commit|]; [|done].
  apply (IH _ _ _ Hrun). lia.
Qed.

(** The walk meets every commit at most once when there is no cycle, so the
    number of commits bounds it. [visited] are the ids already met. *)
Lemma log_loop_terminates (commits : gmap string GitCommit.t) (fuel : nat) :
  ∀ (visited : gset string) reference lines,
    visited ⊆ dom commits →
    (∀ v i, v ∈ visited → nonempty reference = Some i →
            tc (parent_step commits) v i) →
    (∀ i, nonempty reference = Some i → acyclic_from commits i) →
    size (dom commits) < size visited + fuel →
    is_Some (log_loop fuel commits reference lines).
Proof.
  induction fuel as [|fuel IH]; intros visited reference lines Hsub Hpath Hacyc Hsize.
  - apply subseteq_size in Hsub. lia.
  - simpl. destruct (nonempty reference) as [i|] eqn:Hi; [|by eexists].
    destruct (commits !! i) as [commit|] eqn:Hcommit; [|by eexists].
    assert (i ∉ visited) as Hfresh.
    { intros Hin. apply (Hacyc i eq_refl i); [apply rtc_refl|]. by apply Hpath. }
    apply (IH ({[i]} ∪ visited)).
    + apply union_subseteq. split; [|done].
      apply singleton_subseteq_l, elem_of_dom. by eexists.
    + intros v j Hv Hj.
      assert (parent_step commits i j) as Hstep by (by exists commit).
      apply elem_of_union in Hv as [Hv|Hv].
      * apply elem_of_singleton in Hv as ->. by apply tc_once.
      * eapply tc_r; [by apply Hpath | done].
    + intros j Hj a Hreach. apply (Hacyc i eq_refl).
      eapply rtc_l; [|done]. by exists commit.
    + rewrite size_union by (apply disjoint_singleton_l; done).
      rewrite size_singleton. lia.
Qed.

(** The log of the scenario lists the merge commit and [C0]; [C1], which
    only the second parent of the merge reaches, is not in it. *)
Example log_after_merge :
  commits merged = {[ "C0" := commit_C0; "C1" := commit_C1; "C2" := commit_C2 ]}
  ∧ get_commit_log 3 merged
    = Some (join newline (log_entry commit_C2 ++ log_entry commit_C0), merged).
Proof. split; vm_compute; reflexivity. Qed.

Lemma truncated_step (a b : string) :
  parent_step (commits truncated) a b → a = "C5" ∧ b = "C4".
Proof.
  intros (commit & Hcommit & Hparent). simpl in Hcommit.
  apply lookup_singleton_Some in Hcommit as [<- <-].
  simpl in Hparent. by injection Hparent as <-.
Qed.

Lemma truncated_acyclic : acyclic_from (commits truncated) "C5".
Proof.
  intros a _ Hcycle. inversion Hcycle as [? ? Hstep|? b ? Hstep Hrest]; subst.
  - by apply truncated_step in Hstep as [-> ?].
  - apply truncated_step in Hstep as [-> ->].
    inversion Hrest as [? ? Hnext|? ? ? Hnext _]; subst;
      by apply truncated_step in Hnext as [? ?].
Qed.

(** C10. When no commit on the walk from the current head is its own
    first-parent ancestor, [get_commit_log] returns: one more turn than
    there are commits is enough, and more turns give the same text. An id
    that is not a key of [commits] ends the loop at once with the lines
    gathered so far; nothing is raised. *)
Theorem get_commit_log_terminates :
  (∀ (self : GitRepository.t),
     (∀ branch, branches self !! current_branch self = Some branch →
                acyclic_from (commits self) (GitBranch.head branch)) →
     ∃ text, ∀ fuel, size (commits self) < fuel →
       get_commit_log fuel self = Some (text, self))
  ∧ (∀ (commits : gmap string GitCommit.t) (i : string) (fuel : nat)
       (lines : list string),
       commits !! i = None →
       log_loop (S fuel) commits (Some i) lines = Some lines).
Proof.
  split.
  - intros self Hacyc.
    destruct (branches self !! current_branch self) as [branch|] eqn:Hcur.
    + destruct (log_loop_terminates (commits self) (S (size (commits self))) ∅
                  (Some (GitBranch.head branch)) [])
        as [result Hresult].
      * apply empty_subseteq.
      * intros v i Hv. by apply not_elem_of_empty in Hv.
      * intros i Hi. unfold nonempty in Hi. case_decide; [done|].
        injection Hi as <-. by apply Hacyc.
      * rewrite size_dom, size_empty. lia.
      * exists (match result with [] => "No commits yet" | _ => join newline result end).
        intros fuel Hfuel. unfold get_commit_log. rewrite Hcur.
        rewrite (log_loop_more_fuel _ _ _ _ _ Hresult) by lia. done.
    + exists "Error: Current branch not found". intros fuel _.
      by apply get_commit_log_without_current.
  - intros commits i fuel lines Hnone. cbn [log_loop]. unfold nonempty.
    case_decide; [done|]. by rewrite Hnone.
Qed.

Lemma get_commit_log_terminates_witness :
  (∃ text, ∀ fuel, 1 < fuel → get_commit_log fuel truncated = Some (text, truncated))
  ∧ log_loop 1 (commits truncated) (Some "C4") (log_entry (GitCommit.mk "C5" "late" (Some "C4") None noon))
    = Some (log_entry (GitCommit.mk "C5" "late" (Some "C4") None noon)).
Proof.
  split.
  - apply (proj1 get_commit_log_terminates truncated).
    intros branch Hbranch. injection Hbranch as <-. exact truncated_acyclic.
  - apply (proj2 get_commit_log_terminates). reflexivity.
Defined.

(** ** Saving and loading *)

#[local] Arguments Datetime.fromisoformat : simpl never.
#[local] Arguments Datetime.isoformat : simpl never.

Lemma optional_str_round_trip (o : option string) :
  Json.as_optional_str (Json.of_optional_str o) = Ok o.
Proof. by destruct o. Qed.

Lemma commit_from_to_dict (commit : GitCommit.t) :
  GitCommit.from_dict (GitCommit.to_dict commit) = Ok commit.
Proof.
  destruct commit as [i m p sp ts].
  unfold GitCommit.from_dict, GitCommit.to_dict. simpl.
  rewrite DatetimeFacts.fromisoformat_isoformat. simpl.
  rewrite !optional_str_round_trip. reflexivity.
Qed.

Lemma branch_from_to_dict (branch : GitBranch.t) (pick : nat) :
  GitBranch.from_dict (GitBranch.to_dict branch) pick = Ok (recolor pick branch).
Proof. destruct branch as [n h [|c col]]; reflexivity. Qed.

Lemma recolor_colored (pick : nat) (branch : GitBranch.t) :
  GitBranch.color branch ≠ "" → recolor pick branch = branch.
Proof.
  destruct branch as [n h col]. unfold recolor, GitBranch.init. simpl.
  intros Hcol. by case_decide.
Qed.

Lemma load_commits_saved (saved : list (string * GitCommit.t))
    (acc : gmap string GitCommit.t) :
  load_commits (prod_map id GitCommit.to_dict <$> saved) acc
  = Ok (foldl (λ m item, <[item.1 := item.2]> m) acc saved).
Proof.
  revert acc. induction saved as [|[commit_id commit] saved IH]; intros acc; [done|].
  cbn [fmap list_fmap prod_map load_commits fst snd id].
  rewrite commit_from_to_dict. cbn [mbind result_bind]. apply IH.
Qed.

Lemma load_branches_saved (picks : string → nat)
    (saved : list (string * GitBranch.t)) (acc : gmap string GitBranch.t) :
  load_branches picks (prod_map id GitBranch.to_dict <$> saved) acc
  = Ok (foldl (λ m item, <[item.1 := recolor (picks item.1) item.2]> m) acc saved).
Proof.
  revert acc. induction saved as [|[branch_name branch] saved IH]; intros acc; [done|].
  cbn [fmap list_fmap prod_map load_branches fst snd id].
  rewrite branch_from_to_dict. cbn [mbind result_bind]. apply IH.
Qed.

Lemma snapshot_commits (self : GitRepository.t) :
  Json.getitem (snapshot self) "commits"
  = Ok (JDict (prod_map id GitCommit.to_dict <$> map_to_list (commits self))).
Proof. reflexivity. Qed.

Lemma snapshot_branches (self : GitRepository.t) :
  Json.getitem (snapshot self) "branches"
  = Ok (JDict (prod_map id GitBranch.to_dict <$> map_to_list (branches self))).
Proof. reflexivity. Qed.

Lemma snapshot_current_branch (self : GitRepository.t) :
  Json.getitem (snapshot self) "current_branch" = Ok (JStr (current_branch self)).
Proof. reflexivity. Qed.

(** [save_to_file] writes no [head]. *)
Lemma snapshot_head (self : GitRepository.t) :
  Json.getitem (snapshot self) "head" = Raise (KeyError "head").
Proof. reflexivity. Qed.

(** C1, as the code runs. Whatever the repository and the file name,
    loading the file that [save_to_file] has just written raises
    [KeyError('head')]: the commits and the branches are read back, then
    [data['head']] is read, a key that [save_to_file] does not write. No
    repository is returned. *)
Theorem load_after_save_raises :
  ∀ (self : GitRepository.t) (filename : string) (fs : files)
    (now : Datetime.datetime) (pick : nat) (picks : string → nat),
    (save_to_file filename self true fs).1 = Ok ()
    ∧ load_from_file filename now pick picks (save_to_file filename self true fs).2
      = Raise (KeyError "head").
Proof.
  intros self filename fs now pick picks. split; [reflexivity|].
  unfold load_from_file, save_to_file. cbn [snd]. rewrite lookup_insert_eq.
  cbn [mbind result_bind].
  rewrite snapshot_commits. cbn [mbind result_bind Json.items].
  rewrite load_commits_saved. cbn [mbind result_bind].
  rewrite snapshot_branches. cbn [mbind result_bind Json.items].
  rewrite load_branches_saved. cbn [mbind result_bind].
  rewrite snapshot_current_branch. cbn [mbind result_bind].
  by rewrite snapshot_head.
Qed.

Lemma foldl_insert_items {A : Type} (items : list (string * A)) (acc : gmap string A) :
  NoDup items.*1 →
  foldl (λ m item, <[item.1 := item.2]> m) acc items = list_to_map items ∪ acc.
Proof.
  revert acc. induction items as [|[k v] items IH]; intros acc Hnodup.
  - simpl. by rewrite (left_id_L ∅ (∪)).
  - apply NoDup_cons in Hnodup as [Hfresh Hnodup]. simpl.
    rewrite IH by done.
    rewrite <- insert_union_r by (by apply not_elem_of_list_to_map_1).
    by rewrite insert_union_l.
Qed.

Lemma foldl_insert_map_to_list {A : Type} (m : gmap string A) :
  foldl (λ acc item, <[item.1 := item.2]> acc) ∅ (map_to_list m) = m.
Proof.
  rewrite foldl_insert_items by apply NoDup_fst_map_to_list.
  by rewrite list_to_map_to_list, (right_id_L ∅ (∪)).
Qed.

Lemma foldl_recolor_colored (picks : string → nat)
    (items : list (string * GitBranch.t)) (acc : gmap string GitBranch.t) :
  Forall (λ item, GitBranch.color item.2 ≠ "") items →
  foldl (λ m item, <[item.1 := recolor (picks item.1) item.2]> m) acc items
  = foldl (λ m item, <[item.1 := item.2]> m) acc items.
Proof.
  intros Hcolored. revert acc.
  induction Hcolored as [|item items Hcol _ IH]; intros acc; [done|].
  simpl. rewrite recolor_colored by done. apply IH.
Qed.

(** The missing key is the only obstacle: had the file a [head] item, the
    loaded repository would have the commits, the branches and the current
    branch of the saved one. *)
Lemma load_after_save_with_head (self : GitRepository.t) (filename : string)
    (fs : files) (now : Datetime.datetime) (pick : nat) (picks : string → nat)
    (value : json) :
  (∀ name branch, branches self !! name = Some branch → GitBranch.color branch ≠ "") →
  load_from_file filename now pick picks
    (<[filename := with_head value (snapshot self)]> fs)
  = Ok (GitRepository.mk (commits self) (branches self) (current_branch self)
          (Some value)).
Proof.
  intros Hcolored.
  assert (Json.getitem (with_head value (snapshot self)) "commits"
          = Json.getitem (snapshot self) "commits") as Hc by reflexivity.
  assert (Json.getitem (with_head value (snapshot self)) "branches"
          = Json.getitem (snapshot self) "branches") as Hb by reflexivity.
  assert (Json.getitem (with_head value (snapshot self)) "current_branch"
          = Json.getitem (snapshot self) "current_branch") as Hcur by reflexivity.
  assert (Json.getitem (with_head value (snapshot self)) "head" = Ok value)
    as Hhead by reflexivity.
  unfold load_from_file. rewrite lookup_insert_eq. cbn [mbind result_bind].
  rewrite Hc, snapshot_commits. cbn [mbind result_bind Json.items].
  rewrite load_commits_saved. cbn [mbind result_bind].
  rewrite Hb, snapshot_branches. cbn [mbind result_bind Json.items].
  rewrite load_branches_saved. cbn [mbind result_bind].
  rewrite Hcur, snapshot_current_branch. cbn [mbind result_bind].
  rewrite Hhead. cbn [mbind result_bind Json.as_str]. simpl.
  rewrite foldl_recolor_colored, !foldl_insert_map_to_list; [done|].
  apply Forall_forall. intros [name branch] Hin. simpl.
  apply elem_of_map_to_list in Hin. by eapply Hcolored.
Qed.

(** ** The numbering of the commits in the reachable states *)

Lemma commit_key_inj (j k : nat) : commit_key j = commit_key k → j = k.
Proof. unfold commit_key. intros Heq. injection Heq as Heq. by apply (inj pretty). Qed.

Lemma commit_key_nonempty (k : nat) : nonempty (Some (commit_key k)) = Some (commit_key k).
Proof. reflexivity. Qed.

Lemma generate_color_in_palette (pick : nat) :
  GitBranch._generate_color pick ∈ GitBranch.colors.
Proof.
  unfold GitBranch._generate_color.
  pose proof (Nat.mod_upper_bound pick 6 ltac:(lia)) as Hlt.
  destruct (GitBranch.colors !! (pick mod 6)) as [c|] eqn:Hc.
  - change (c ∈ GitBranch.colors). by eapply list_elem_of_lookup_2.
  - apply lookup_ge_None in Hc. change (length GitBranch.colors) with 6 in Hc. lia.
Qed.

Lemma numbered_fresh (now0 : Datetime.datetime) (self : GitRepository.t) :
  numbered now0 self → commits self !! commit_key (size (commits self)) = None.
Proof.
  intros Hnum. destruct (commits self !! _) as [commit|] eqn:Hlook; [|done].
  apply (numbered_keys _ _ Hnum) in Hlook as (k & Hk & Heq & _).
  apply commit_key_inj in Heq. lia.
Qed.

Lemma numbered_init (now : Datetime.datetime) (pick : nat) :
  numbered now (__init__ now pick).
Proof.
  assert (size (commits (__init__ now pick)) = 1) as Hsize by reflexivity.
  split; rewrite ?Hsize.
  - intros i commit Hlook. simpl in Hlook.
    apply lookup_insert_Some in Hlook as [[<- <-]|[_ Hlook]];
      [|by rewrite lookup_empty in Hlook].
    exists 0. split; [lia|]. split; [done|]. split; [done|].
    split; [intros p Hp; discriminate Hp|].
    split; [intros p Hp; discriminate Hp | done].
  - intros k Hk. assert (k = 0) as -> by lia. by eexists.
  - reflexivity.
  - intros name branch Hlook. simpl in Hlook.
    apply lookup_insert_Some in Hlook as [[<- <-]|[_ Hlook]];
      [|by rewrite lookup_empty in Hlook].
    split; [done|]. split; [exists 0; split; [lia | done]|].
    apply generate_color_in_palette.
  - by eexists.
Qed.

(** Storing commit number [n] on top of [n] numbered commits. *)
Lemma numbered_store (now0 : Datetime.datetime) (self : GitRepository.t)
    (message : string) (first : string) (second : option string)
    (now : Datetime.datetime) (current : GitBranch.t) :
  numbered now0 self →
  branches self !! current_branch self = Some current →
  (∃ j, j < size (commits self) ∧ first = commit_key j) →
  older (size (commits self)) second →
  let key := commit_key (size (commits self)) in
  numbered now0
    (set_branches <[current_branch self := GitBranch.set_head key current]>
       (set_commits <[key := GitCommit.init key message (Some first) second now]> self)).
Proof.
  intros Hnum Hcur Hfirst Hsecond key.
  pose proof (numbered_fresh _ _ Hnum) as Hfresh. fold key in Hfresh.
  assert (size (<[key := GitCommit.init key message (Some first) second now]>
                  (commits self)) = S (size (commits self))) as Hsize
    by (by apply map_size_insert_None).
  split; simpl; rewrite ?Hsize.
  - intros i commit Hlook.
    apply lookup_insert_Some in Hlook as [[<- <-]|[Hne Hlook]].
    + exists (size (commits self)). simpl. repeat split; try done; try lia.
      intros p [= <-]. done.
    + apply (numbered_keys _ _ Hnum) in Hlook as (k & Hk & Hrest).
      exists k. split; [lia | done].
  - intros k Hk. rewrite lookup_insert_is_Some'.
    destruct (decide (k = size (commits self))) as [->|Hne]; [by left|].
    right. apply (numbered_dense _ _ Hnum). lia.
  - rewrite lookup_insert_ne; [apply (numbered_root _ _ Hnum)|].
    intros Heq. pose proof (numbered_root _ _ Hnum) as Hroot.
    rewrite <- Heq, Hfresh in Hroot. discriminate Hroot.
  - intros name branch Hlook.
    apply lookup_insert_Some in Hlook as [[<- <-]|[Hne Hlook]].
    + destruct (numbered_branches _ _ Hnum _ _ Hcur) as (Hname & _ & Hcolor).
      simpl. split; [done|]. split; [|done].
      exists (size (commits self)). split; [lia | done].
    + destruct (numbered_branches _ _ Hnum _ _ Hlook) as (Hname & (j & Hj & Hhead) & Hcolor).
      split; [done|]. split; [|done]. exists j. split; [lia | done].
  - unfold current_branch_resolves. simpl. rewrite lookup_insert_eq. by eexists.
Qed.

Lemma numbered_run (now0 : Datetime.datetime) (cmd : command) (self : GitRepository.t) :
  numbered now0 self → numbered now0 (run cmd self).2.
Proof.
  intros Hnum. destruct (numbered_current _ _ Hnum) as [current Hcur].
  destruct (numbered_branches _ _ Hnum _ _ Hcur) as (_ & Hhead & _).
  destruct cmd as [message now|name pick|name|source now]; simpl.
  - unfold create_commit. rewrite Hcur. simpl.
    by apply numbered_store.
  - unfold create_branch. destruct (branches self !! name) eqn:Hname; [done|].
    rewrite Hcur. simpl. split; simpl; try apply Hnum.
    + intros other branch Hlook.
      apply lookup_insert_Some in Hlook as [[<- <-]|[Hne Hlook]];
        [|by apply (numbered_branches _ _ Hnum)].
      simpl. split; [done|]. split; [done|]. apply generate_color_in_palette.
    + unfold current_branch_resolves. simpl.
      rewrite lookup_insert_ne by congruence. by eexists.
  - unfold checkout_branch. destruct (branches self !! name) eqn:Hname; [|done].
    simpl. split; simpl; try apply Hnum. unfold current_branch_resolves. simpl.
    rewrite Hname. by eexists.
  - unfold merge_branches. destruct (branches self !! source) as [src|] eqn:Hsrc;
      [|done].
    rewrite Hcur. destruct (decide _); [done|]. simpl.
    apply numbered_store; try done.
    destruct (numbered_branches _ _ Hnum _ _ Hsrc) as (_ & (j & Hj & Hj') & _).
    intros p [= <-]. by exists j.
Qed.

Lemma numbered_run_all (cmds : list command) (now : Datetime.datetime) (pick : nat) :
  numbered now (run_all cmds (__init__ now pick)).
Proof.
  apply (run_all_invariant (numbered now)); [apply numbered_run | apply numbered_init].
Qed.

Lemma numbered_step_older (now0 : Datetime.datetime) (self : GitRepository.t)
    (a b : string) :
  numbered now0 self → parent_step (commits self) a b →
  ∃ k j, a = commit_key k ∧ b = commit_key j ∧ j < k ∧ k < size (commits self).
Proof.
  intros Hnum (commit & Hlook & Hparent).
  apply (numbered_keys _ _ Hnum) in Hlook as (k & Hk & -> & _ & Hold & _).
  unfold nonempty in Hparent.
  destruct (GitCommit.parent commit) as [p|] eqn:Hp; [|done].
  case_decide; [done|]. injection Hparent as ->.
  destruct (Hold b eq_refl) as (j & Hj & ->). by exists k, j.
Qed.

Lemma numbered_path_older (now0 : Datetime.datetime) (self : GitRepository.t)
    (a b : string) :
  numbered now0 self → tc (parent_step (commits self)) a b →
  ∃ k j, a = commit_key k ∧ b = commit_key j ∧ j < k.
Proof.
  intros Hnum Hpath. induction Hpath as [a b Hstep|a y b Hstep _ IH].
  - destruct (numbered_step_older _ _ _ _ Hnum Hstep) as (k & j & ? & ? & ? & _).
    by exists k, j.
  - destruct (numbered_step_older _ _ _ _ Hnum Hstep) as (k & j & -> & -> & Hjk & _).
    destruct IH as (k' & j' & Heq & -> & Hjk'). apply commit_key_inj in Heq as <-.
    exists k, j'. repeat split; lia.
Qed.

Lemma numbered_acyclic (now0 : Datetime.datetime) (self : GitRepository.t)
    (start : string) :
  numbered now0 self → acyclic_from (commits self) start.
Proof.
  intros Hnum a _ Hcycle.
  destruct (numbered_path_older _ _ _ _ Hnum Hcycle) as (k & j & -> & Heq & Hjk).
  apply commit_key_inj in Heq. lia.
Qed.

Lemma chain_from_none (commits : gmap string GitCommit.t) (chain : list GitCommit.t) :
  first_parent_chain commits None chain → chain = [].
Proof. by inversion 1. Qed.

(** In a numbered repository the chain from a stored commit starts with it
    and runs down to the initial commit. *)
Lemma numbered_chain (now0 : Datetime.datetime) (self : GitRepository.t)
    (reference : option string) (chain : list GitCommit.t) :
  numbered now0 self →
  first_parent_chain (commits self) reference chain →
  ∀ j, j < size (commits self) → reference = Some (commit_key j) →
    ∃ first rest,
      chain = first :: rest
      ∧ commits self !! commit_key j = Some first
      ∧ last chain = Some (GitCommit.mk "C0" "Initial commit" None None now0).
Proof.
  intros Hnum Hchain.
  induction Hchain as [reference Hend|reference i Hi Hnone
                       |reference i commit chain Hi Hcommit Hrest IH];
    intros j Hj ->.
  - by rewrite commit_key_nonempty in Hend.
  - rewrite commit_key_nonempty in Hi. injection Hi as <-.
    destruct (numbered_dense _ _ Hnum j Hj) as [c Hc]. by rewrite Hc in Hnone.
  - rewrite commit_key_nonempty in Hi. injection Hi as <-.
    exists commit, chain. split; [done|]. split; [done|].
    destruct (numbered_keys _ _ Hnum _ _ Hcommit)
      as (k & Hk & Heq & _ & Hold & _ & Hroot).
    apply commit_key_inj in Heq as <-.
    destruct (GitCommit.parent commit) as [p|] eqn:Hp.
    + destruct (Hold p eq_refl) as (j' & Hj' & ->).
      destruct (IH j' ltac:(lia) eq_refl) as (first & rest & -> & _ & Hlast).
      by rewrite last_cons, Hlast.
    + apply chain_from_none in Hrest as ->. simpl. f_equal.
      rewrite (Hroot eq_refl) in Hcommit.
      pose proof (numbered_root _ _ Hnum) as Hinit.
      change (commit_key 0) with "C0" in Hcommit. congruence.
Qed.

Lemma get_commit_log_of_lines (self : GitRepository.t) (branch : GitBranch.t)
    (fuel : nat) (chain : list GitCommit.t) :
  branches self !! current_branch self = Some branch →
  log_loop fuel (commits self) (Some (GitBranch.head branch)) []
    = Some (chain ≫= log_entry) →
  get_commit_log fuel self = Some (log_text chain, self).
Proof.
  intros Hcur Hloop. unfold get_commit_log. rewrite Hcur, Hloop. simpl.
  by destruct chain.
Qed.

(** In a numbered repository the log is the text of the chain of the current
    head as soon as the loop may turn once more than there are commits. *)
Lemma numbered_log (now0 : Datetime.datetime) (self : GitRepository.t)
    (branch : GitBranch.t) (chain : list GitCommit.t) :
  numbered now0 self →
  branches self !! current_branch self = Some branch →
  first_parent_chain (commits self) (Some (GitBranch.head branch)) chain →
  ∀ fuel, size (commits self) < fuel →
    get_commit_log fuel self = Some (log_text chain, self).
Proof.
  intros Hnum Hcur Hchain fuel Hfuel.
  destruct (log_loop_terminates (commits self) (S (size (commits self))) ∅
              (Some (GitBranch.head branch)) []) as [result Hresult].
  - apply empty_subseteq.
  - intros v i Hv. by apply not_elem_of_empty in Hv.
  - intros i _. by eapply numbered_acyclic.
  - rewrite size_dom, size_empty. lia.
  - pose proof (log_loop_chain _ _ _ Hchain (S (length chain)) [] ltac:(lia)) as Hrun.
    simpl app in Hrun.
    pose proof (log_loop_more_fuel _ _ _ _ _ Hresult
                  (S (size (commits self)) + S (length chain)) ltac:(lia)) as H1.
    pose proof (log_loop_more_fuel _ _ _ _ _ Hrun
                  (S (size (commits self)) + S (length chain)) ltac:(lia)) as H2.
    rewrite H1 in H2. injection H2 as ->.
    apply (get_commit_log_of_lines _ branch); [done|].
    apply (log_loop_more_fuel _ _ _ _ _ Hresult). lia.
Qed.

Lemma numbered_has_chain (now0 : Datetime.datetime) (self : GitRepository.t)
    (branch : GitBranch.t) :
  numbered now0 self →
  branches self !! current_branch self = Some branch →
  ∃ chain, first_parent_chain (commits self) (Some (GitBranch.head branch)) chain.
Proof.
  intros Hnum Hcur.
  destruct (log_loop_terminates (commits self) (S (size (commits self))) ∅
              (Some (GitBranch.head branch)) []) as [result Hresult].
  - apply empty_subseteq.
  - intros v i Hv. by apply not_elem_of_empty in Hv.
  - intros i _. by eapply numbered_acyclic.
  - rewrite size_dom, size_empty. lia.
  - apply log_loop_returns_chain in Hresult as (chain & Hchain & _). by exists chain.
Qed.

(** A chain that never leaves the stored commits is still the chain after a
    commit is stored under a free id. *)
Lemma chain_insert_fresh (now0 : Datetime.datetime) (self : GitRepository.t)
    (key : string) (new : GitCommit.t) (reference : option string)
    (chain : list GitCommit.t) :
  numbered now0 self →
  commits self !! key = None →
  first_parent_chain (commits self) reference chain →
  (∀ i, reference = Some i → ∃ j, j < size (commits self) ∧ i = commit_key j) →
  first_parent_chain (<[key := new]> (commits self)) reference chain.
Proof.
  intros Hnum Hfresh Hchain.
  induction Hchain as [reference Hend|reference i Hi Hnone
                       |reference i commit chain Hi Hcommit Hrest IH];
    intros Hstored.
  - by apply chain_end.
  - destruct reference as [r|]; [|done].
    destruct (Hstored r eq_refl) as (j & Hj & ->).
    rewrite commit_key_nonempty in Hi. injection Hi as <-.
    destruct (numbered_dense _ _ Hnum j Hj) as [c Hc]. by rewrite Hc in Hnone.
  - eapply chain_step; [done| |].
    + rewrite lookup_insert_ne; [done|]. intros <-. by rewrite Hfresh in Hcommit.
    + apply IH. intros p Hp.
      destruct (numbered_keys _ _ Hnum _ _ Hcommit) as (k & Hk & _ & _ & Hold & _).
      destruct (Hold p Hp) as (j & Hj & ->). exists j. split; [lia | done].
Qed.

(** ** Properties of the reachable states *)

(** X1. In every state reached from the constructor's by the in-memory
    operations, the ids in use are exactly C0, C1, ..., C(n-1) for the [n]
    commits stored: ids are dense and none is skipped or reused. *)
Theorem reachable_commit_ids :
  ∀ (cmds : list command) (now : Datetime.datetime) (pick : nat) (i : string),
    let self := run_all cmds (__init__ now pick) in
    is_Some (commits self !! i) ↔ ∃ k, k < size (commits self) ∧ i = commit_key k.
Proof.
  intros cmds now pick i self.
  pose proof (numbered_run_all cmds now pick) as Hnum. fold self in Hnum. split.
  - intros [commit Hlook].
    destruct (numbered_keys _ _ Hnum _ _ Hlook) as (k & Hk & Heq & _). by exists k.
  - intros (k & Hk & ->). by apply (numbered_dense _ _ Hnum).
Qed.

(** X2. In every reachable state each commit is stored under its own id and
    each branch under its own name, and every branch has one of the six
    palette colours. *)
Theorem reachable_keys_match :
  ∀ (cmds : list command) (now : Datetime.datetime) (pick : nat),
    let self := run_all cmds (__init__ now pick) in
    (∀ i commit, commits self !! i = Some commit → GitCommit.id commit = i)
    ∧ (∀ name branch, branches self !! name = Some branch →
         GitBranch.name branch = name
         ∧ GitBranch.color branch ∈ GitBranch.colors).
Proof.
  intros cmds now pick self.
  pose proof (numbered_run_all cmds now pick) as Hnum. fold self in Hnum. split.
  - intros i commit Hlook.
    by destruct (numbered_keys _ _ Hnum _ _ Hlook) as (k & _ & _ & Hid & _).
  - intros name branch Hlook.
    by destruct (numbered_branches _ _ Hnum _ _ Hlook) as (Hname & _ & Hcolor).
Qed.

(** X3. In every reachable state the id that the next commit or merge will
    take is free, so no operation overwrites a commit: whatever the command,
    every stored commit is still stored, unchanged, after it, every branch
    name is still a branch name, and at most one commit is added. *)
Theorem reachable_append_only :
  ∀ (cmds : list command) (now : Datetime.datetime) (pick : nat) (cmd : command),
    let self := run_all cmds (__init__ now pick) in
    let self' := (run cmd self).2 in
    commits self !! commit_key (size (commits self)) = None
    ∧ commits self ⊆ commits self'
    ∧ dom (branches self) ⊆ dom (branches self')
    ∧ size (commits self') ≤ S (size (commits self)).
Proof.
  intros cmds now pick cmd self self'.
  pose proof (numbered_run_all cmds now pick) as Hnum. fold self in Hnum.
  pose proof (numbered_fresh _ _ Hnum) as Hfresh.
  split; [done|]. subst self'.
  destruct cmd as [message t|name p|name|source t]; simpl.
  - unfold create_commit.
    destruct (branches self !! current_branch self) as [branch|] eqn:Hcur;
      simpl; [|by auto].
    split; [by apply insert_subseteq|]. split.
    + rewrite dom_insert_L. set_solver.
    + by rewrite map_size_insert_None.
  - unfold create_branch. destruct (branches self !! name); [by auto|].
    destruct (branches self !! current_branch self); simpl; [|by auto].
    split; [done|]. split; [|lia]. rewrite dom_insert_L. set_solver.
  - unfold checkout_branch. destruct (branches self !! name); simpl; by auto.
  - unfold merge_branches. destruct (branches self !! source); [|by auto].
    destruct (branches self !! current_branch self); [|by auto].
    destruct (decide _); simpl; [by auto|].
    split; [by apply insert_subseteq|]. split.
    + rewrite dom_insert_L. set_solver.
    + by rewrite map_size_insert_None.
Qed.

(** X4. In every reachable state the links are closed and point backwards:
    the parent and the second parent of a stored commit are stored commits
    with a lower number than the commit itself, and the only commit without
    parent is the initial commit [C0]. *)
Theorem reachable_links_resolve :
  ∀ (cmds : list command) (now : Datetime.datetime) (pick : nat)
    (k : nat) (commit : GitCommit.t),
    let self := run_all cmds (__init__ now pick) in
    commits self !! commit_key k = Some commit →
    (∀ p, GitCommit.parent commit = Some p ∨ GitCommit.second_parent commit = Some p →
       ∃ j, j < k ∧ p = commit_key j ∧ is_Some (commits self !! p))
    ∧ (GitCommit.parent commit = None →
       commit = GitCommit.mk "C0" "Initial commit" None None now).
Proof.
  intros cmds now pick k commit self Hlook.
  pose proof (numbered_run_all cmds now pick) as Hnum. fold self in Hnum.
  destruct (numbered_keys _ _ Hnum _ _ Hlook)
    as (k' & Hk & Heq & _ & Hparent & Hsecond & Hroot).
  apply commit_key_inj in Heq as <-. split.
  - intros p [Hp|Hp]; [destruct (Hparent p Hp) as (j & Hj & ->)
                      |destruct (Hsecond p Hp) as (j & Hj & ->)];
      (exists j; split; [done|]; split; [done|];
       apply (numbered_dense _ _ Hnum); lia).
  - intros Hnone. rewrite (Hroot Hnone) in Hlook.
    pose proof (numbered_root _ _ Hnum) as Hinit.
    change (commit_key 0) with "C0" in Hlook. congruence.
Qed.

Lemma reachable_links_resolve_witness :
  ∃ j, j < 2 ∧ "C1" = commit_key j ∧ is_Some (commits merged !! "C1").
Proof.
  apply (proj1 (reachable_links_resolve
                  [Branch "b" 1; Checkout "b"; Commit "work" later;
                   Checkout "master"; Merge "b" later]
                  noon 0 2 commit_C2 eq_refl) "C1").
  by right.
Defined.

(** X5. In every reachable state [get_commit_log] returns, within one more
    turn of its loop than there are commits: its text lists a chain of
    commits that starts with the commit at the head of the current branch
    and ends with the initial commit [C0]. It is never "No commits yet" nor
    the error text. *)
Theorem reachable_log :
  ∀ (cmds : list command) (now : Datetime.datetime) (pick : nat),
    let self := run_all cmds (__init__ now pick) in
    ∃ (branch : GitBranch.t) (first : GitCommit.t) (rest : list GitCommit.t),
      branches self !! current_branch self = Some branch
      ∧ commits self !! GitBranch.head branch = Some first
      ∧ last (first :: rest)
        = Some (GitCommit.mk "C0" "Initial commit" None None now)
      ∧ ∀ fuel, size (commits self) < fuel →
          get_commit_log fuel self
          = Some (join newline ((first :: rest) ≫= log_entry), self).
Proof.
  intros cmds now pick self.
  pose proof (numbered_run_all cmds now pick) as Hnum. fold self in Hnum.
  destruct (numbered_current _ _ Hnum) as [branch Hcur].
  destruct (numbered_branches _ _ Hnum _ _ Hcur) as (_ & (j & Hj & Hhead) & _).
  destruct (numbered_has_chain _ _ _ Hnum Hcur) as [chain Hchain].
  destruct (numbered_chain _ _ _ _ Hnum Hchain j Hj (f_equal Some Hhead))
    as (first & rest & -> & Hfirst & Hlast).
  exists branch, first, rest. rewrite Hhead. repeat split; try done.
  intros fuel Hfuel. by rewrite (numbered_log _ _ _ _ Hnum Hcur Hchain fuel Hfuel).
Qed.

(** X6. In every reachable state a commit puts one entry on top of the log:
    the log after [create_commit] lists the new commit, which carries the
    given message, followed by the commits that the log listed before. *)
Theorem reachable_commit_extends_log :
  ∀ (cmds : list command) (now : Datetime.datetime) (pick : nat)
    (message : string) (at_time : Datetime.datetime),
    let self := run_all cmds (__init__ now pick) in
    let self' := (create_commit message at_time self).2 in
    ∃ (chain : list GitCommit.t) (new : GitCommit.t),
      GitCommit.message new = message
      ∧ GitCommit.timestamp new = at_time
      ∧ (∀ fuel, size (commits self) < fuel →
           get_commit_log fuel self = Some (log_text chain, self))
      ∧ (∀ fuel, S (size (commits self)) < fuel →
           get_commit_log fuel self' = Some (log_text (new :: chain), self')).
Proof.
  intros cmds now pick message at_time self self'.
  pose proof (numbered_run_all cmds now pick) as Hnum. fold self in Hnum.
  pose proof (numbered_run now (Commit message at_time) self Hnum) as Hnum'.
  simpl in Hnum'. fold self' in Hnum'.
  destruct (numbered_current _ _ Hnum) as [branch Hcur].
  destruct (numbered_branches _ _ Hnum _ _ Hcur) as (_ & (j & Hj & Hhead) & _).
  destruct (numbered_has_chain _ _ _ Hnum Hcur) as [chain Hchain].
  pose proof (numbered_fresh _ _ Hnum) as Hfresh.
  set (key := commit_key (size (commits self))) in *.
  set (new := GitCommit.init key message (Some (GitBranch.head branch)) None at_time).
  assert (self' = set_branches
                    <[current_branch self := GitBranch.set_head key branch]>
                    (set_commits <[key := new]> self)) as Hself'.
  { subst self'. unfold create_commit. by rewrite Hcur. }
  exists chain, new. split; [done|]. split; [done|]. split.
  - intros fuel Hfuel. by apply (numbered_log _ _ _ _ Hnum Hcur Hchain).
  - intros fuel Hfuel.
    assert (size (commits self') = S (size (commits self))) as Hsize.
    { rewrite Hself'. simpl. by rewrite map_size_insert_None. }
    apply (numbered_log now self' (GitBranch.set_head key branch)); try done.
    + rewrite Hself'. simpl. by rewrite lookup_insert_eq.
    + rewrite Hself'. simpl. eapply chain_step.
      * apply commit_key_nonempty.
      * apply lookup_insert_eq.
      * simpl. eapply chain_insert_fresh; try done.
        intros i [= <-]. by exists j.
    + lia.
Qed.

Lemma numbered_merge (now0 : Datetime.datetime) (self : GitRepository.t)
    (source_name : string) (at_time : Datetime.datetime) (source target : GitBranch.t) :
  numbered now0 self →
  branches self !! source_name = Some source →
  branches self !! current_branch self = Some target →
  GitBranch.head target ≠ GitBranch.head source →
  let self' := (merge_branches source_name at_time self).2 in
  size (commits self') = S (size (commits self))
  ∧ branches self' !! source_name = Some source
  ∧ branches self' !! current_branch self'
    = Some (GitBranch.set_head (commit_key (size (commits self))) target).
Proof.
  intros Hnum Hsrc Hcur Hne self'.
  pose proof (numbered_fresh _ _ Hnum) as Hfresh.
  assert (source_name ≠ current_branch self) as Hdiff.
  { intros ->. rewrite Hsrc in Hcur. by simplify_eq. }
  subst self'. unfold merge_branches. rewrite Hsrc, Hcur.
  destruct (decide _) as [?|_]; [done|]. simpl.
  split; [by apply map_size_insert_None|].
  split; [by rewrite lookup_insert_ne | by rewrite lookup_insert_eq].
Qed.

(** X7. Merging is not idempotent once the heads differ: in a reachable
    state, merging a branch whose head differs from the current head twice
    in a row stores two merge commits. *)
Theorem reachable_merge_twice :
  ∀ (cmds : list command) (now : Datetime.datetime) (pick : nat)
    (source_name : string) (t1 t2 : Datetime.datetime)
    (source target : GitBranch.t),
    let self := run_all cmds (__init__ now pick) in
    branches self !! source_name = Some source →
    branches self !! current_branch self = Some target →
    GitBranch.head target ≠ GitBranch.head source →
    size (commits (run_all [Merge source_name t1; Merge source_name t2] self))
    = size (commits self) + 2.
Proof.
  intros cmds now pick source_name t1 t2 source target self Hsrc Hcur Hne.
  pose proof (numbered_run_all cmds now pick) as Hnum. fold self in Hnum.
  pose proof (numbered_run now (Merge source_name t1) self Hnum) as Hnum1.
  destruct (numbered_branches _ _ Hnum _ _ Hsrc) as (_ & (j & Hj & Hhead) & _).
  destruct (numbered_merge _ _ _ t1 _ _ Hnum Hsrc Hcur Hne) as (Hsize1 & Hsrc1 & Hcur1).
  unfold run_all. simpl foldl. simpl in Hnum1.
  destruct (numbered_merge _ _ _ t2 _ _ Hnum1 Hsrc1 Hcur1) as (Hsize2 & _).
  - simpl. rewrite Hhead. intros Heq. apply commit_key_inj in Heq. lia.
  - rewrite Hsize2, Hsize1. lia.
Qed.

Lemma reachable_merge_twice_witness :
  size (commits (run_all [Merge "b" noon; Merge "b" later] diverged))
  = size (commits diverged) + 2.
Proof.
  apply (reachable_merge_twice
           [Branch "b" 1; Checkout "b"; Commit "work" later; Checkout "master"]
           noon 0 "b" noon later
           (GitBranch.mk "b" "C1" "#4caf50") (GitBranch.mk "master" "C0" "#2196f3")
           eq_refl eq_refl).
  simpl. discriminate.
Defined.

(** X8. Work on a new branch leaves the old one where it was: after
    [branch name], [checkout name], [commit message] with a free name, the
    branch that was current is unchanged, the new branch is current and
    points at the new commit, whose parent is the commit both started from. *)
Theorem branch_checkout_commit :
  ∀ (self : GitRepository.t) (name message : string) (pick : nat)
    (now : Datetime.datetime) (current : GitBranch.t),
    branches self !! name = None →
    branches self !! current_branch self = Some current →
    let key := "C" +:+ pretty (size (commits self)) in
    let self' := run_all [Branch name pick; Checkout name; Commit message now] self in
    branches self' !! current_branch self = Some current
    ∧ current_branch self' = name
    ∧ GitBranch.head <$> branches self' !! name = Some key
    ∧ commits self' !! key
      = Some (GitCommit.mk key message (Some (GitBranch.head current)) None now).
Proof.
  intros self name message pick now current Hfree Hcur key self'.
  assert (name ≠ current_branch self) as Hne by (intros ->; congruence).
  subst self'. unfold run_all. simpl.
  unfold create_branch. rewrite Hfree, Hcur. simpl.
  unfold checkout_branch. simpl. rewrite lookup_insert_eq. simpl.
  unfold create_commit. simpl. rewrite lookup_insert_eq. simpl.
  rewrite lookup_insert_ne by done. rewrite lookup_insert_ne by done.
  by rewrite !lookup_insert_eq.
Qed.

Lemma branch_checkout_commit_witness :
  branches diverged !! "master" = Some (GitBranch.mk "master" "C0" "#2196f3")
  ∧ GitBranch.head <$> branches
      (run_all [Branch "b" 1; Checkout "b"; Commit "work" later] fresh) !! "b"
    = Some "C1".
Proof.
  destruct (branch_checkout_commit fresh "b" "work" 1 later
              (GitBranch.mk "master" "C0" "#2196f3") eq_refl eq_refl)
    as (Hold & _ & Hnew & _).
  split; [reflexivity | exact Hnew].
Defined.

(** ** Dictionaries of commits and branches *)

Lemma assoc_app (key : string) (items more : list (string * json)) :
  Json.assoc key (items ++ more)
  = match Json.assoc key items with
    | Some v => Some v
    | None => Json.assoc key more
    end.
Proof.
  induction items as [|[k v] items IH]; [done|]. simpl. by case_decide.
Qed.

(** X9. [GitCommit.from_dict] inverts [GitCommit.to_dict], timestamp
    included, so two commits with the same dictionary are equal. *)
Theorem commit_dict_round_trip :
  (∀ commit, GitCommit.from_dict (GitCommit.to_dict commit) = Ok commit)
  ∧ (∀ c1 c2, GitCommit.to_dict c1 = GitCommit.to_dict c2 → c1 = c2).
Proof.
  split; [exact commit_from_to_dict|].
  intros c1 c2 Heq. apply (f_equal GitCommit.from_dict) in Heq.
  rewrite !commit_from_to_dict in Heq. by injection Heq.
Qed.

(** X10. A commit record without [second_parent] is read like one whose
    [second_parent] is null ([data.get]), and the commit read from it has no
    second parent. *)
Theorem commit_from_dict_without_second_parent :
  ∀ (items : list (string * json)),
    Json.assoc "second_parent" items = None →
    GitCommit.from_dict (JDict items)
      = GitCommit.from_dict (JDict (items ++ [("second_parent", JNull)]))
    ∧ ∀ commit, GitCommit.from_dict (JDict items) = Ok commit →
        GitCommit.second_parent commit = None.
Proof.
  intros items Hnone. split.
  - unfold GitCommit.from_dict, Json.getitem, Json.get.
    rewrite !assoc_app, Hnone. simpl.
    by repeat (destruct (Json.assoc _ items); simpl).
  - intros commit Hload. unfold GitCommit.from_dict in Hload.
    apply bind_Ok in Hload as (i & _ & Hload).
    apply bind_Ok in Hload as (m & _ & Hload).
    apply bind_Ok in Hload as (p & _ & Hload).
    apply bind_Ok in Hload as (sp & Hsp & Hload).
    apply bind_Ok in Hload as (st & _ & Hload).
    apply bind_Ok in Hload as (ts & _ & Hload).
    apply bind_Ok in Hload as (i' & _ & Hload).
    apply bind_Ok in Hload as (m' & _ & Hload).
    apply bind_Ok in Hload as (p' & _ & Hload).
    apply bind_Ok in Hload as (sp' & Hsp' & [= <-]).
    simpl in Hsp. rewrite Hnone in Hsp. injection Hsp as <-.
    by injection Hsp' as <-.
Qed.

Lemma commit_from_dict_without_second_parent_witness :
  GitCommit.from_dict
    (JDict [("id", JStr "C0"); ("message", JStr "Initial commit");
            ("parent", JNull); ("timestamp", JStr "2024-05-17T12:00:00")])
  = GitCommit.from_dict
      (JDict ([("id", JStr "C0"); ("message", JStr "Initial commit");
               ("parent", JNull); ("timestamp", JStr "2024-05-17T12:00:00")]
              ++ [("second_parent", JNull)])).
Proof.
  apply (commit_from_dict_without_second_parent
           [("id", JStr "C0"); ("message", JStr "Initial commit");
            ("parent", JNull); ("timestamp", JStr "2024-05-17T12:00:00")]).
  reflexivity.
Defined.

(** X11. Whatever [GitCommit.from_dict] returns is what the record says: the
    record is a dict whose [id] and [message] are the strings of the commit,
    whose [parent] is its parent (null for none), and whose [timestamp] is a
    string that parses to its timestamp. A record that lacks one of the four
    keys yields no commit. *)
Theorem commit_from_dict_reads_record :
  ∀ (data : json) (commit : GitCommit.t),
    GitCommit.from_dict data = Ok commit →
    ∃ items stamp,
      data = JDict items
      ∧ Json.assoc "id" items = Some (JStr (GitCommit.id commit))
      ∧ Json.assoc "message" items = Some (JStr (GitCommit.message commit))
      ∧ Json.assoc "parent" items
        = Some (Json.of_optional_str (GitCommit.parent commit))
      ∧ Json.assoc "timestamp" items = Some (JStr stamp)
      ∧ Datetime.fromisoformat stamp = Ok (GitCommit.timestamp commit).
Proof.
  intros data commit Hload. unfold GitCommit.from_dict in Hload.
  apply bind_Ok in Hload as (i & Hi & Hload).
  apply bind_Ok in Hload as (m & Hm & Hload).
  apply bind_Ok in Hload as (p & Hp & Hload).
  apply bind_Ok in Hload as (sp & _ & Hload).
  apply bind_Ok in Hload as (st & Hst & Hload).
  apply bind_Ok in Hload as (ts & Hts & Hload).
  apply bind_Ok in Hload as (i' & Hi' & Hload).
  apply bind_Ok in Hload as (m' & Hm' & Hload).
  apply bind_Ok in Hload as (p' & Hp' & Hload).
  apply bind_Ok in Hload as (sp' & _ & [= <-]).
  destruct data as [| | | | |items]; try done.
  destruct st as [| | |stamp| |]; try done.
  destruct i as [| | |i| |]; try done. injection Hi' as <-.
  destruct m as [| | |m| |]; try done. injection Hm' as <-.
  unfold Json.getitem in *.
  destruct (Json.assoc "id" items) eqn:Hid; [|done]. injection Hi as ->.
  destruct (Json.assoc "message" items) eqn:Hmsg; [|done]. injection Hm as ->.
  destruct (Json.assoc "parent" items) eqn:Hpar; [|done]. injection Hp as ->.
  destruct (Json.assoc "timestamp" items) eqn:Hstamp; [|done]. injection Hst as ->.
  exists items, stamp. simpl. repeat split; try done.
  destruct p as [| | |p| |]; simpl in Hp'; try done; by injection Hp' as <-.
Qed.

Lemma commit_from_dict_reads_record_witness :
  ∃ items stamp,
    GitCommit.to_dict commit_C2 = JDict items
    ∧ Json.assoc "id" items = Some (JStr "C2")
    ∧ Json.assoc "message" items = Some (JStr "Merge branch 'b' into master")
    ∧ Json.assoc "parent" items = Some (JStr "C0")
    ∧ Json.assoc "timestamp" items = Some (JStr stamp)
    ∧ Datetime.fromisoformat stamp = Ok later.
Proof.
  apply (commit_from_dict_reads_record (GitCommit.to_dict commit_C2) commit_C2).
  vm_compute. reflexivity.
Defined.

Lemma palette_nonempty (c : string) : c ∈ GitBranch.colors → c ≠ "".
Proof.
  unfold GitBranch.colors. rewrite !elem_of_cons, elem_of_nil.
  intros Hin ->. repeat (destruct Hin as [Hin|Hin]; [discriminate Hin|]). done.
Qed.

(** X12. A branch never has an empty colour: the constructor keeps a
    non-empty colour it is given and draws one of the six palette colours
    otherwise, whatever the draw. *)
Theorem branch_colour_never_empty :
  ∀ (name head : string) (color : option string) (pick : nat),
    let branch := GitBranch.init name head color pick in
    GitBranch.name branch = name
    ∧ GitBranch.head branch = head
    ∧ GitBranch.color branch ≠ ""
    ∧ (∀ c, color = Some c → c ≠ "" → GitBranch.color branch = c)
    ∧ (color = None ∨ color = Some "" →
       GitBranch.color branch ∈ GitBranch.colors).
Proof.
  intros name head color pick branch. subst branch. unfold GitBranch.init. simpl.
  split; [done|]. split; [done|].
  pose proof (generate_color_in_palette pick) as Hin.
  pose proof (palette_nonempty _ Hin) as Hne.
  split; [|split].
  - destruct color as [c|]; [|done]. by case_decide.
  - intros c -> Hc. by case_decide.
  - intros [->| ->]; [done|]. by case_decide.
Qed.

(** X13. [GitBranch.from_dict] inverts [GitBranch.to_dict] on every branch
    with a non-empty colour, whatever colour would be drawn; on any branch it
    keeps name and head. *)
Theorem branch_dict_round_trip :
  ∀ (branch : GitBranch.t) (pick : nat),
    (GitBranch.color branch ≠ "" →
       GitBranch.from_dict (GitBranch.to_dict branch) pick = Ok branch)
    ∧ ∃ loaded,
        GitBranch.from_dict (GitBranch.to_dict branch) pick = Ok loaded
        ∧ GitBranch.name loaded = GitBranch.name branch
        ∧ GitBranch.head loaded = GitBranch.head branch
        ∧ GitBranch.color loaded ≠ "".
Proof.
  intros branch pick. rewrite branch_from_to_dict. split.
  - intros Hcol. by rewrite recolor_colored.
  - exists (recolor pick branch). split; [done|]. unfold recolor.
    by destruct (branch_colour_never_empty (GitBranch.name branch)
                   (GitBranch.head branch) (Some (GitBranch.color branch)) pick)
      as (? & ? & ? & _).
Qed.

Lemma branch_dict_round_trip_witness :
  GitBranch.from_dict (GitBranch.to_dict (GitBranch.mk "b" "C1" "#4caf50")) 0
  = Ok (GitBranch.mk "b" "C1" "#4caf50").
Proof.
  apply (proj1 (branch_dict_round_trip (GitBranch.mk "b" "C1" "#4caf50") 0)).
  simpl. discriminate.
Defined.

(** ** The graph handed to the renderer *)

#[local] Set Warnings "-clear-no-such-hyp".

Lemma touch_lookup (u n : string) (nodes : gmap string (option string)) :
  DiGraph.touch u nodes !! n
  = match nodes !! n with
    | Some label => Some label
    | None => if decide (u = n) then Some None else None
    end.
Proof.
  unfold DiGraph.touch. destruct (nodes !! u) as [label|] eqn:Hu.
  - destruct (nodes !! n) eqn:Hn; [done|]. case_decide; [congruence | done].
  - rewrite lookup_insert. case_decide; [subst; by rewrite Hu|].
    by destruct (nodes !! n).
Qed.

Lemma add_edge_nodes (u v n : string) (G : DiGraph.t) :
  DiGraph.nodes (DiGraph.add_edge u v G) !! n
  = match DiGraph.nodes G !! n with
    | Some label => Some label
    | None => if decide (u = n ∨ v = n) then Some None else None
    end.
Proof.
  unfold DiGraph.add_edge. simpl. rewrite !touch_lookup.
  destruct (DiGraph.nodes G !! n); [done|].
  repeat case_decide; naive_solver.
Qed.

Lemma step_edges (G : DiGraph.t) (k : string) (commit : GitCommit.t) (u v : string) :
  (u, v) ∈ DiGraph.edges (build_graph_step G (k, commit))
  ↔ (u, v) ∈ DiGraph.edges G ∨ (v = k ∧ links_to u commit).
Proof.
  unfold build_graph_step, links_to. simpl.
  destruct (nonempty (GitCommit.parent commit)) as [p|],
           (nonempty (GitCommit.second_parent commit)) as [q|]; simpl;
    rewrite ?elem_of_union, ?elem_of_singleton; naive_solver.
Qed.

Lemma step_nodes (G : DiGraph.t) (k : string) (commit : GitCommit.t) (n : string) :
  is_Some (DiGraph.nodes (build_graph_step G (k, commit)) !! n)
  ↔ is_Some (DiGraph.nodes G !! n) ∨ n = k ∨ links_to n commit.
Proof.
  unfold build_graph_step, links_to. simpl.
  destruct (nonempty (GitCommit.parent commit)) as [p|],
           (nonempty (GitCommit.second_parent commit)) as [q|];
    rewrite ?add_edge_nodes; simpl; rewrite lookup_insert;
    destruct (decide (k = n)) as [->|Hk];
    destruct (DiGraph.nodes G !! n) as [label|]; simpl;
    repeat case_decide; rewrite ?is_Some_alt; naive_solver.
Qed.

Lemma step_label (G : DiGraph.t) (k : string) (commit : GitCommit.t) (n : string) :
  n = k ∨ DiGraph.nodes G !! n = Some (Some n) →
  DiGraph.nodes (build_graph_step G (k, commit)) !! n = Some (Some n).
Proof.
  intros Hn.
  assert (DiGraph.nodes (DiGraph.add_node k k G) !! n = Some (Some n)) as Hnode.
  { simpl. rewrite lookup_insert. case_decide; [by subst|]. by destruct Hn. }
  unfold build_graph_step. simpl.
  destruct (nonempty (GitCommit.parent commit)) as [p|],
           (nonempty (GitCommit.second_parent commit)) as [q|];
    rewrite ?add_edge_nodes; by rewrite ?Hnode.
Qed.

Lemma graph_of_items (items : list (string * GitCommit.t)) :
  ∀ (G : DiGraph.t),
    let G' := foldl build_graph_step G items in
    (∀ u v, (u, v) ∈ DiGraph.edges G'
            ↔ (u, v) ∈ DiGraph.edges G
              ∨ ∃ commit, (v, commit) ∈ items ∧ links_to u commit)
    ∧ (∀ n, is_Some (DiGraph.nodes G' !! n)
            ↔ is_Some (DiGraph.nodes G !! n) ∨ n ∈ items.*1
              ∨ ∃ v commit, (v, commit) ∈ items ∧ links_to n commit)
    ∧ (∀ n, n ∈ items.*1 ∨ DiGraph.nodes G !! n = Some (Some n) →
            DiGraph.nodes G' !! n = Some (Some n)).
Proof.
  induction items as [|[k commit] items IH]; intros G G'.
  - subst G'. simpl. split; [|split].
    + intros u v. split; [by left|]. intros [?|(c & Hin & _)]; [done|].
      by apply elem_of_nil in Hin.
    + intros n. split; [by left|]. intros [?|[Hin|(v & c & Hin & _)]]; [done| |];
        by apply elem_of_nil in Hin.
    + intros n [Hin|?]; [by apply elem_of_nil in Hin | done].
  - subst G'. simpl foldl.
    destruct (IH (build_graph_step G (k, commit))) as (Hedges & Hnodes & Hlabel).
    split; [|split].
    + intros u v. rewrite Hedges, step_edges. split.
      * intros [[?|[-> Hl]]|(c & Hin & Hl)]; [by left| |].
        -- right. exists commit. split; [by left | done].
        -- right. exists c. split; [by right | done].
      * intros [?|(c & Hin & Hl)]; [by left; left|].
        apply elem_of_cons in Hin as [[= -> ->]|Hin]; [by left; right|].
        right. by exists c.
    + intros n. rewrite Hnodes, step_nodes. simpl. rewrite elem_of_cons. split.
      * intros [[?|[->|Hl]]|[Hin|(v & c & Hin & Hl)]].
        -- by left.
        -- right; left. by left.
        -- right; right. exists k, commit. split; [by left | done].
        -- right; left. by right.
        -- right; right. exists v, c. split; [by right | done].
      * intros [?|[[->|Hin]|(v & c & Hin & Hl)]].
        -- by left; left.
        -- by left; right; left.
        -- by right; left.
        -- apply elem_of_cons in Hin as [[= -> ->]|Hin]; [by left; right; right|].
           right; right. by exists v, c.
    + intros n Hn. apply Hlabel. simpl in Hn. rewrite elem_of_cons in Hn.
      destruct Hn as [[->|Hin]|Hn]; [right | by left | right];
        apply step_label; by auto.
Qed.

(** X14. [build_graph] draws exactly the links of the stored commits: there
    is an edge from [u] to [v] exactly when [v] is the key of a commit whose
    parent or second parent is the non-empty id [u]; every commit key is a
    node labelled with itself; and the nodes are the commit keys and the
    sources of the edges, nothing else. *)
Theorem build_graph_spec :
  ∀ (self : GitRepository.t),
    let G := build_graph self in
    (∀ u v, (u, v) ∈ DiGraph.edges G
            ↔ ∃ commit, commits self !! v = Some commit ∧ links_to u commit)
    ∧ (∀ n, is_Some (commits self !! n) → DiGraph.nodes G !! n = Some (Some n))
    ∧ (∀ n, is_Some (DiGraph.nodes G !! n)
            ↔ is_Some (commits self !! n) ∨ ∃ v, (n, v) ∈ DiGraph.edges G).
Proof.
  intros self G.
  destruct (graph_of_items (map_to_list (commits self)) DiGraph.empty)
    as (Hedges & Hnodes & Hlabel). fold (build_graph self) in *. fold G in Hedges, Hnodes, Hlabel.
  assert (∀ n, n ∈ (map_to_list (commits self)).*1 ↔ is_Some (commits self !! n))
    as Hkeys.
  { intros n. rewrite list_elem_of_fmap. split.
    - intros ([k c] & -> & Hin). apply elem_of_map_to_list in Hin. by eexists.
    - intros [c Hc]. exists (n, c). split; [done|]. by apply elem_of_map_to_list. }
  assert (∀ u v, (u, v) ∈ DiGraph.edges G
                 ↔ ∃ commit, commits self !! v = Some commit ∧ links_to u commit)
    as Hedges'.
  { intros u v. rewrite Hedges. split.
    - intros [Hin|(c & Hin & Hl)]; [by apply elem_of_empty in Hin|].
      exists c. split; [by apply elem_of_map_to_list | done].
    - intros (c & Hc & Hl). right. exists c.
      split; [by apply elem_of_map_to_list | done]. }
  split; [exact Hedges'|]. split.
  - intros n Hn. apply Hlabel. left. by apply Hkeys.
  - intros n. rewrite Hnodes, Hkeys. split.
    + intros [[? Hempty]|[?|(v & c & Hin & Hl)]];
        [simpl in Hempty; by rewrite lookup_empty in Hempty | by left |].
      right. exists v. apply Hedges'. exists c.
      split; [by apply elem_of_map_to_list | done].
    + intros [?|[v Hin]]; [by right; left|].
      apply Hedges' in Hin as (c & Hc & Hl). right; right. exists v, c.
      split; [by apply elem_of_map_to_list | done].
Qed.

Lemma numbered_edge_older (now0 : Datetime.datetime) (self : GitRepository.t)
    (u v : string) :
  numbered now0 self → (u, v) ∈ DiGraph.edges (build_graph self) →
  ∃ j k, u = commit_key j ∧ v = commit_key k ∧ j < k ∧ k < size (commits self).
Proof.
  intros Hnum Hedge.
  apply (proj1 (graph_of_items _ DiGraph.empty)) in Hedge
    as [Hin|(c & Hin & Hl)]; [by apply elem_of_empty in Hin|].
  apply elem_of_map_to_list in Hin.
  destruct (numbered_keys _ _ Hnum _ _ Hin) as (k & Hk & -> & _ & Hp & Hs & _).
  unfold links_to, nonempty in Hl.
  destruct Hl as [Hl|Hl];
    [destruct (GitCommit.parent c) as [p|] eqn:Hq
    |destruct (GitCommit.second_parent c) as [p|] eqn:Hq]; try done;
    case_decide; try done; injection Hl as ->;
    [destruct (Hp u eq_refl) as (j & Hj & ->)
    |destruct (Hs u eq_refl) as (j & Hj & ->)]; by exists j, k.
Qed.

(** X15. In every reachable state the graph of [build_graph] is a DAG over
    the commits: its nodes are exactly the stored commits, each labelled
    with its id, every edge runs from a lower-numbered commit to a
    higher-numbered one, and no node reaches itself along the edges. *)
Theorem reachable_graph_is_dag :
  ∀ (cmds : list command) (now : Datetime.datetime) (pick : nat),
    let self := run_all cmds (__init__ now pick) in
    let G := build_graph self in
    (∀ n, DiGraph.nodes G !! n
          = if decide (is_Some (commits self !! n)) then Some (Some n) else None)
    ∧ (∀ u v, (u, v) ∈ DiGraph.edges G →
              ∃ j k, u = commit_key j ∧ v = commit_key k ∧ j < k
                     ∧ k < size (commits self))
    ∧ (∀ n, ¬ tc (λ u v, (u, v) ∈ DiGraph.edges G) n n).
Proof.
  intros cmds now pick self G.
  pose proof (numbered_run_all cmds now pick) as Hnum. fold self in Hnum.
  assert (∀ u v, (u, v) ∈ DiGraph.edges G →
                 ∃ j k, u = commit_key j ∧ v = commit_key k ∧ j < k
                        ∧ k < size (commits self)) as Hedge
    by (intros u v; by apply (numbered_edge_older now)).
  split; [|split; [exact Hedge|]].
  - intros n.
    destruct (graph_of_items (map_to_list (commits self)) DiGraph.empty)
      as (_ & Hnodes & Hlabel).
    fold (build_graph self) in Hnodes, Hlabel. fold G in Hnodes, Hlabel.
    case_decide as Hn.
    + apply Hlabel. left. destruct Hn as [c Hc]. apply list_elem_of_fmap.
      exists (n, c). split; [done|]. by apply elem_of_map_to_list.
    + destruct (DiGraph.nodes G !! n) as [label|] eqn:Hlook; [|done].
      destruct Hn. assert (is_Some (DiGraph.nodes G !! n)) as Hsome by (by eexists).
      apply Hnodes in Hsome as [[? Hempty]|[Hin|(v & c & Hin & Hl)]].
      * simpl in Hempty. by rewrite lookup_empty in Hempty.
      * apply list_elem_of_fmap in Hin as ([k c] & -> & Hin).
        apply elem_of_map_to_list in Hin. by eexists.
      * assert ((n, v) ∈ DiGraph.edges G) as He.
        { apply (proj1 (graph_of_items _ DiGraph.empty)). right. by exists c. }
        destruct (Hedge _ _ He) as (j & k & -> & _ & Hjk & Hk).
        apply (numbered_dense _ _ Hnum). lia.
  - intros n Hcycle.
    assert (∀ a b, tc (λ u v, (u, v) ∈ DiGraph.edges G) a b →
                   ∃ j k, a = commit_key j ∧ b = commit_key k ∧ j < k) as Hpath.
    { intros a b Hab. induction Hab as [a b Hstep|a y b Hstep _ IH].
      - destruct (Hedge _ _ Hstep) as (j & k & ? & ? & ? & _). by exists j, k.
      - destruct (Hedge _ _ Hstep) as (j & k & -> & -> & Hjk & _).
        destruct IH as (j' & k' & Heq & -> & Hjk').
        apply commit_key_inj in Heq as <-. exists j, k'. repeat split; lia. }
    destruct (Hpath _ _ Hcycle) as (j & k & -> & Heq & Hjk).
    apply commit_key_inj in Heq. lia.
Qed.

(** ** What [load_from_file] returns *)

Lemma load_commits_reads (items : list (string * json))
    (acc loaded : gmap string GitCommit.t) :
  load_commits items acc = Ok loaded →
  (∀ i, is_Some (loaded !! i) ↔ i ∈ items.*1 ∨ is_Some (acc !! i))
  ∧ (∀ i commit, loaded !! i = Some commit →
       acc !! i = Some commit
       ∨ ∃ record, (i, record) ∈ items ∧ GitCommit.from_dict record = Ok commit).
Proof.
  revert acc. induction items as [|[commit_id record] rest IH]; intros acc Hload.
  - simpl in Hload. injection Hload as <-. split.
    + intros i. simpl. split; [by right|].
      intros [Hin|?]; [by apply elem_of_nil in Hin | done].
    + intros i commit Hi. by left.
  - simpl in Hload. apply bind_Ok in Hload as (commit & Hcommit & Hrest).
    destruct (IH _ Hrest) as (Hkeys & Hvalues). split.
    + intros i. rewrite Hkeys, lookup_insert_is_Some. simpl. rewrite elem_of_cons.
      destruct (decide (commit_id = i)) as [->|Hne].
      * split; intros _; [by left; left | by right; left].
      * split.
        -- intros [Hin|[?|[_ ?]]]; [by left; right | done | by right].
        -- intros [[?|Hin]|?]; [done | by left | by right; right].
    + intros i c Hi. destruct (Hvalues i c Hi) as [Hacc|(d & Hin & Hd)].
      * apply lookup_insert_Some in Hacc as [[<- <-]|[_ Hacc]]; [|by left].
        right. exists record. split; [by left | done].
      * right. exists d. split; [by right | done].
Qed.

(** X16. Whatever [load_from_file] returns comes from the file, and nothing
    of the repository that the constructor call [cls()] builds first
    survives: the file exists, its document has a [commits] dict and a [head]
    item, the attribute [head] of the result is that item, the keys of the
    loaded commits are the keys of the document's commits, and each loaded
    commit is what [GitCommit.from_dict] makes of a record under its key. *)
Theorem load_reads_document :
  ∀ (filename : string) (now : Datetime.datetime) (pick : nat)
    (picks : string → nat) (fs : files) (loaded : GitRepository.t),
    load_from_file filename now pick picks fs = Ok loaded →
    ∃ data commit_items head_value,
      fs !! filename = Some data
      ∧ Json.getitem data "commits" = Ok (JDict commit_items)
      ∧ Json.getitem data "head" = Ok head_value
      ∧ head loaded = Some head_value
      ∧ (∀ i, is_Some (commits loaded !! i) ↔ i ∈ commit_items.*1)
      ∧ (∀ i commit, commits loaded !! i = Some commit →
           ∃ record, (i, record) ∈ commit_items
                     ∧ GitCommit.from_dict record = Ok commit).
Proof.
  intros filename now pick picks fs loaded Hload. unfold load_from_file in Hload.
  destruct (fs !! filename) as [data|] eqn:Hfile; [|done].
  apply bind_Ok in Hload as (data' & [= <-] & Hload).
  apply bind_Ok in Hload as (commit_items & Hitems & Hload).
  apply bind_Ok in Hload as (loaded_commits & Hcommits & Hload).
  apply bind_Ok in Hload as (branch_items & _ & Hload).
  apply bind_Ok in Hload as (loaded_branches & _ & Hload).
  apply bind_Ok in Hload as (current & _ & Hload).
  apply bind_Ok in Hload as (head_value & Hhead & Hload).
  apply bind_Ok in Hload as (current_name & _ & [= <-]).
  apply bind_Ok in Hitems as (node & Hnode & Hitems).
  destruct node; try done. injection Hitems as ->.
  destruct (load_commits_reads _ _ _ Hcommits) as (Hkeys & Hvalues).
  exists data, commit_items, head_value. simpl. repeat split; try done.
  - intros Hin. apply Hkeys in Hin as [?|[? Hempty]]; [done|].
    simpl in Hempty. by rewrite lookup_empty in Hempty.
  - intros Hin. apply Hkeys. by left.
  - intros i commit Hi. destruct (Hvalues i commit Hi) as [Hempty|?]; [|done].
    simpl in Hempty. by rewrite lookup_empty in Hempty.
Qed.

Lemma load_reads_document_witness :
  ∃ data commit_items head_value,
    ({[ "repo.json" := orphan_document ]} : files) !! "repo.json" = Some data
    ∧ Json.getitem data "commits" = Ok (JDict commit_items)
    ∧ Json.getitem data "head" = Ok head_value
    ∧ head orphan = Some head_value
    ∧ (∀ i, is_Some (commits orphan !! i) ↔ i ∈ commit_items.*1)
    ∧ (∀ i commit, commits orphan !! i = Some commit →
         ∃ record, (i, record) ∈ commit_items
                   ∧ GitCommit.from_dict record = Ok commit).
Proof.
  apply (load_reads_document "repo.json" later 4 (λ _, 0)
           {[ "repo.json" := orphan_document ]} orphan).
  vm_compute. reflexivity.
Defined.

(** X17. What [save_to_file] writes is enough to rebuild a reachable
    repository: from the saved document with a [head] item added,
    [load_from_file] returns the same commits, the same branches (colours
    included) and the same current branch, whatever its own inputs. *)
Theorem reachable_snapshot_reloads :
  ∀ (cmds : list command) (now : Datetime.datetime) (pick : nat)
    (filename : string) (fs : files) (now' : Datetime.datetime) (pick' : nat)
    (picks : string → nat) (value : json),
    let self := run_all cmds (__init__ now pick) in
    load_from_file filename now' pick' picks
      (<[filename := with_head value (snapshot self)]> fs)
    = Ok (GitRepository.mk (commits self) (branches self) (current_branch self)
            (Some value)).
Proof.
  intros cmds now pick filename fs now' pick' picks value self.
  pose proof (numbered_run_all cmds now pick) as Hnum. fold self in Hnum.
  apply load_after_save_with_head. intros name branch Hlook.
  destruct (numbered_branches _ _ Hnum _ _ Hlook) as (_ & _ & Hcolor).
  by apply palette_nonempty.
Qed.

(** ** The command dispatcher *)

Import GitSimulatorApp.

Lemma get_commit_log_state (fuel : nat) (self self' : GitRepository.t) (text : string) :
  get_commit_log fuel self = Some (text, self') → self' = self.
Proof.
  unfold get_commit_log. destruct (branches self !! current_branch self).
  - destruct (log_loop fuel _ _ _); simpl; [|done]. by intros [= _ <-].
  - by intros [= _ <-].
Qed.

Lemma app_eta (self : GitSimulatorApp.t) : GitSimulatorApp.mk (repo self) = self.
Proof. by destruct self. Qed.



(** X19. A command changes little: only [save] changes the filesystem; only
    [commit], [branch], [checkout], [merge] and [load] can change the
    repository, and [load] replaces it only by a repository that
    [load_from_file] returned: a failed load, like [log], [help], [clear],
    [save] and any unknown command, leaves it as it was. *)
Theorem shell_state_changes :
  ∀ (fuel : nat) (now : Datetime.datetime) (pick : nat) (picks : string → nat)
    (opened : bool) (cmd : string) (args : list string)
    (self self' : GitSimulatorApp.t) (fs fs' : files) (res : result string),
    _process_command fuel now pick picks opened cmd args self fs
      = Some (res, (self', fs')) →
    (fs' ≠ fs → cmd = "save")
    ∧ (self' ≠ self →
       cmd = "commit" ∨ cmd = "branch" ∨ cmd = "checkout" ∨ cmd = "merge"
       ∨ (cmd = "load"
          ∧ ∃ filename rest,
              args = filename :: rest
              ∧ load_from_file filename now pick picks fs = Ok (repo self'))).
Proof.
  intros fuel now pick picks opened cmd args self self' fs fs' res.
  unfold _process_command.
  assert (∀ (P Q : Prop), (fs ≠ fs → P) ∧ (self ≠ self → Q)) as Hsame
    by (intros P Q; split; intros Hne; by destruct Hne).
  assert (∀ (other : GitSimulatorApp.t) (P Q : Prop),
            Q → (fs ≠ fs → P) ∧ (other ≠ self → Q)) as Hrepo
    by (intros other P Q HQ; split; [intros Hne; by destruct Hne | done]).
  destruct (decide (cmd = "help")); [by intros [= _ <- <-]|].
  destruct (decide (cmd = "commit")); [intros [= _ _ <-]; apply Hrepo; by auto|].
  destruct (decide (cmd = "branch"));
    [destruct args; intros [= _ ? <-]; subst; [done|]; apply Hrepo; by auto|].
  destruct (decide (cmd = "checkout"));
    [destruct args; intros [= _ ? <-]; subst; [done|]; apply Hrepo; by auto|].
  destruct (decide (cmd = "merge"));
    [destruct args; intros [= _ ? <-]; subst; [done|]; apply Hrepo; by auto 6|].
  destruct (decide (cmd = "log")).
  { destruct (get_commit_log fuel (repo self)) as [[text repo']|] eqn:Hlog;
      simpl; [|done].
    apply get_commit_log_state in Hlog as ->. rewrite app_eta.
    by intros [= _ <- <-]. }
  destruct (decide (cmd = "clear")); [by intros [= _ <- <-]|].
  destruct (decide (cmd = "save")).
  { intros [= _ <- _]. split; [done|]. intros Hne. by destruct Hne. }
  destruct (decide (cmd = "load")) as [->|]; [|by intros [= _ <- <-]].
  destruct args as [|filename rest]; [by intros [= _ <- <-]|].
  destruct (fs !! filename); [|by intros [= _ <- <-]].
  destruct (load_from_file filename now pick picks fs) as [loaded| |] eqn:Hload;
    [|by intros [= _ <- <-]..].
  intros [= _ <- <-]. apply Hrepo. do 4 right. split; [done|].
  by exists filename, rest.
Qed.

Lemma shell_state_changes_witness :
  ((<["f" := snapshot fresh]> ∅ : files) ≠ ∅ → "save" = "save")
  ∧ (GitSimulatorApp.mk fresh ≠ GitSimulatorApp.mk fresh →
     "save" = "commit" ∨ "save" = "branch" ∨ "save" = "checkout" ∨ "save" = "merge"
     ∨ ("save" = "load"
        ∧ ∃ filename rest,
            ["f"] = filename :: rest
            ∧ load_from_file filename noon 0 (λ _, 0) ∅ = Ok fresh)).
Proof.
  apply (shell_state_changes 1 noon 0 (λ _, 0) true "save" ["f"]
           (GitSimulatorApp.mk fresh) (GitSimulatorApp.mk fresh)
           ∅ (<["f" := snapshot fresh]> ∅) (Ok "Repository saved to f")).
  reflexivity.
Defined.



(** ** Committing in a reachable state *)

(** X21. In every reachable state [create_commit] succeeds and adds exactly
    one commit, under an id that was free, whatever the message. *)
Theorem reachable_commit_succeeds :
  ∀ (cmds : list command) (now : Datetime.datetime) (pick : nat)
    (message : string) (at_time : Datetime.datetime),
    let self := run_all cmds (__init__ now pick) in
    let key := commit_key (size (commits self)) in
    ∃ self',
      create_commit message at_time self
        = (Ok (true, "Created commit " +:+ key +:+ ": " +:+ message), self')
      ∧ commits self !! key = None
      ∧ GitCommit.message <$> commits self' !! key = Some message
      ∧ size (commits self') = S (size (commits self)).
Proof.
  intros cmds now pick message at_time self key.
  pose proof (numbered_run_all cmds now pick) as Hnum. fold self in Hnum.
  pose proof (numbered_fresh _ _ Hnum) as Hfresh. fold key in Hfresh.
  destruct (numbered_current _ _ Hnum) as [branch Hcur].
  unfold create_commit. rewrite Hcur. eexists. split; [reflexivity|]. simpl.
  split; [done|]. split; [by rewrite lookup_insert_eq|].
  by apply map_size_insert_None.
Qed.

(** ** The text of the commit log *)

Lemma join_concat (sep : string) (lines : list string) :
  join sep lines = String.concat sep lines.
Proof.
  induction lines as [|line rest IH]; [done|].
  destruct rest as [|next rest]; [done|].
  change (join sep (line :: next :: rest))
    with (line +:+ sep +:+ join sep (next :: rest)).
  by rewrite IH.
Qed.

Lemma log_rendering (chain : list GitCommit.t) :
  match chain ≫= log_entry with
  | [] => "No commits yet"
  | _ => join newline (chain ≫= log_entry)
  end
  = match chain with
    | [] => "No commits yet"
    | _ =>
        String.concat (String "010"%char EmptyString)
          (chain ≫= λ commit,
             [ "Commit: " +:+ GitCommit.id commit;
               "Message: " +:+ GitCommit.message commit;
               "Date: " +:+ Datetime.strftime (GitCommit.timestamp commit);
               "" ])
    end.
Proof.
  destruct chain as [|commit chain]; [done|].
  rewrite join_concat. reflexivity.
Qed.

Lemma looping_log_loop (fuel : nat) (lines : list string) :
  log_loop fuel (commits looping) (Some "C1") lines = None.
Proof.
  revert lines. induction fuel as [|fuel IH]; intros lines; [done|].
  change (log_loop (S fuel) (commits looping) (Some "C1") lines)
    with (log_loop fuel (commits looping) (Some "C1")
            (lines ++ log_entry (GitCommit.mk "C1" "again" (Some "C1") None later))).
  apply IH.
Qed.

(** C7 as stated fails: the current branch of [looping] resolves, and
    [get_commit_log] does not return on it, however many turns its loop is
    given. [looping] is what [create_commit] leaves of the repository loaded
    from [lone_document]: with one commit stored the new id is [C1] again,
    and the new commit, whose parent is the old head [C1], replaces it. *)
Lemma get_commit_log_never_returns :
  load_from_file "repo.json" later 4 (λ _, 0) {[ "repo.json" := lone_document ]}
    = Ok lone
  ∧ create_commit "again" later lone
    = (Ok (true, "Created commit C1: again"), looping)
  ∧ commits looping !! "C1"
    = Some (GitCommit.mk "C1" "again" (Some "C1") None later)
  ∧ current_branch_resolves looping
  ∧ ∀ fuel, get_commit_log fuel looping = None.
Proof.
  split; [vm_compute; reflexivity|]. split; [reflexivity|].
  split; [reflexivity|]. split; [by eexists|].
  intros fuel. unfold get_commit_log.
  change (branches looping !! current_branch looping)
    with (Some (GitBranch.mk "master" "C1" "#2196f3")).
  cbn [GitBranch.head]. by rewrite looping_log_loop.
Qed.

(** C7, amended. When the current branch resolves and no commit on the walk
    from its head is its own first-parent ancestor, [get_commit_log]
    returns, within one more turn of its loop than there are commits, and
    leaves the repository as it was. The text is the lines "Commit: <id>",
    "Message: <message>", "Date: <timestamp, as %Y-%m-%d %H:%M:%S>" and an
    empty line for each commit of the first-parent chain of the current
    head, in that order, joined by newlines ("No commits yet" for an empty
    chain); whatever a call returns in any state is that text. The second
    parents play no part: erasing all of them leaves the text unchanged, and
    the log after the merge of the specification's scenario lists the merge
    commit and [C0], not [C1]. A year below 1000 is printed without
    padding. *)
Theorem get_commit_log_first_parents :
  let newline := String "010"%char EmptyString in
  let render := λ chain : list GitCommit.t,
    match chain with
    | [] => "No commits yet"
    | _ =>
        String.concat newline
          (chain ≫= λ commit,
             [ "Commit: " +:+ GitCommit.id commit;
               "Message: " +:+ GitCommit.message commit;
               "Date: " +:+ Datetime.strftime (GitCommit.timestamp commit);
               "" ])
    end in
  (∀ (self : GitRepository.t) (branch : GitBranch.t),
     branches self !! current_branch self = Some branch →
     acyclic_from (commits self) (GitBranch.head branch) →
     ∃ chain,
       first_parent_chain (commits self) (Some (GitBranch.head branch)) chain
       ∧ ∀ fuel, size (commits self) < fuel →
           get_commit_log fuel self = Some (render chain, self))
  ∧ (∀ (self self' : GitRepository.t) (branch : GitBranch.t) (fuel : nat)
       (text : string),
       branches self !! current_branch self = Some branch →
       get_commit_log fuel self = Some (text, self') →
       self' = self
       ∧ ∃ chain,
           first_parent_chain (commits self) (Some (GitBranch.head branch)) chain
           ∧ text = render chain)
  ∧ (∀ (self : GitRepository.t) (fuel : nat),
       fst <$> get_commit_log fuel (set_commits (fmap forget_second_parent) self)
       = fst <$> get_commit_log fuel self)
  ∧ get_commit_log 3 merged
    = Some ("Commit: C2" +:+ newline
            +:+ "Message: Merge branch 'b' into master" +:+ newline
            +:+ "Date: 2024-05-17 12:30:07" +:+ newline
            +:+ newline
            +:+ "Commit: C0" +:+ newline
            +:+ "Message: Initial commit" +:+ newline
            +:+ "Date: 2024-05-17 12:00:00" +:+ newline, merged)
  ∧ get_commit_log 2 ancient
    = Some ("Commit: C0" +:+ newline
            +:+ "Message: old" +:+ newline
            +:+ "Date: 999-01-02 03:04:05" +:+ newline, ancient).
Proof.
  intros nl render.
  assert (∀ chain, match chain ≫= log_entry with
                   | [] => "No commits yet"
                   | _ => join newline (chain ≫= log_entry)
                   end = render chain) as Hrender by apply log_rendering.
  split; [|split; [|split; [|split]]].
  - intros self branch Hcur Hacyc.
    destruct (log_loop_terminates (commits self) (S (size (commits self))) ∅
                (Some (GitBranch.head branch)) []) as [result Hresult].
    + apply empty_subseteq.
    + intros v i Hv. by apply not_elem_of_empty in Hv.
    + intros i Hi. unfold nonempty in Hi. case_decide; [done|].
      by injection Hi as <-.
    + rewrite size_dom, size_empty. lia.
    + destruct (log_loop_returns_chain _ _ _ _ _ Hresult) as (chain & Hchain & ->).
      exists chain. split; [done|]. intros fuel Hfuel.
      unfold get_commit_log. rewrite Hcur.
      rewrite (log_loop_more_fuel _ _ _ _ _ Hresult fuel) by lia.
      cbn [mbind option_bind app]. by rewrite Hrender.
  - intros self self' branch fuel text Hcur Hrun.
    unfold get_commit_log in Hrun. rewrite Hcur in Hrun.
    destruct (log_loop fuel (commits self) _ _) as [result|] eqn:Hloop; [|done].
    cbn [mbind option_bind] in Hrun. injection Hrun as <- <-. split; [done|].
    apply log_loop_returns_chain in Hloop as (chain & Hchain & ->).
    exists chain. split; [done|]. cbn [app]. by rewrite Hrender.
  - intros self fuel. unfold get_commit_log. simpl.
    destruct (branches self !! current_branch self) as [branch|]; [|done].
    rewrite log_loop_forget_second_parent.
    by destruct (log_loop fuel (commits self) _ _).
  - vm_compute. reflexivity.
  - vm_compute. reflexivity.
Qed.

Lemma get_commit_log_first_parents_witness :
  ∃ chain,
    first_parent_chain (commits merged) (Some "C2") chain
    ∧ ∀ fuel, 3 < fuel →
        get_commit_log fuel merged
        = Some (match chain with
                | [] => "No commits yet"
                | _ =>
                    String.concat (String "010"%char EmptyString)
                      (chain ≫= λ commit,
                         [ "Commit: " +:+ GitCommit.id commit;
                           "Message: " +:+ GitCommit.message commit;
                           "Date: " +:+ Datetime.strftime (GitCommit.timestamp commit);
                           "" ])
                end, merged).
Proof.
  apply (proj1 get_commit_log_first_parents merged
           (GitBranch.mk "master" "C2" "#2196f3")).
  - reflexivity.
  - apply (numbered_acyclic noon).
    apply (numbered_run_all
             [Branch "b" 1; Checkout "b"; Commit "work" later;
              Checkout "master"; Merge "b" later] noon 0).
Defined.
